(** * Rehab Racer (JOGO.py): the control and session engine

    A shallow embedding of the per-frame body of [main], of [map_thr_rev],
    [clamp] and the phase protocol of [JOGO.py], with the properties of the
    design document proved (or refuted) on it; and of the low-pass filter,
    the line handling and the port choice of the sensor thread, and the
    values that the drawing functions compute (phase bar, goal label,
    clock), with further properties of the code.

    Numbers.  Python floats are read as real numbers: [+], [-], [*] are the
    field operations of [R], comparisons are the order of [R], and rounding,
    infinities and the sign of zero are not modelled.  [float("nan")] only
    ever appears in report rows, which therefore use the type [fval].
    Division and [**] raise [ZeroDivisionError] in Python; here they return
    [None], and every function that divides is written in the [option]
    monad.

    Time.  [time.time()] and [clock.tick(60)] are inputs of a frame: the
    wall clock [now] and the frame duration [dt].  The sensor thread is seen
    through the two fields the loop reads, [imu.last_angle] and
    [imu.battery_v].  The thread itself is modelled by the handling of the
    lines it reads ([IMU.handle_line]); the serial link is not.

    Text.  Lines of the sensor and names of ports are strings of the
    standard library (ASCII); the parser [float()] of the host language is a
    parameter of the line handling, [None] standing for [ValueError]. *)

From Stdlib Require Import Reals Lra Lia ZArith List Bool.
From Stdlib Require String Ascii.
Import ListNotations.

Open Scope R_scope.

(** ** Comparisons and arithmetic of the host language *)

Definition Rltb (a b : R) : bool := if Rlt_dec a b then true else false.
Definition Rleb (a b : R) : bool := if Rle_dec a b then true else false.
Definition Reqb (a b : R) : bool := if Req_dec_T a b then true else false.

Notation "a <? b" := (Rltb a b) (at level 70, no associativity) : R_scope.
Notation "a <=? b" := (Rleb a b) (at level 70, no associativity) : R_scope.
Notation "a >? b" := (Rltb b a) (at level 70, no associativity) : R_scope.
Notation "a >=? b" := (Rleb b a) (at level 70, no associativity) : R_scope.
Notation "a =? b" := (Reqb a b) (at level 70, no associativity) : R_scope.

(** The error monad of a frame: [None] is an uncaught Python exception. *)
Definition bind {A B : Type} (m : option A) (k : A -> option B) : option B :=
  match m with
  | Some a => k a
  | None => None
  end.

Notation "x <- m ;; k" := (bind m (fun x => k))
  (at level 61, m at next level, right associativity).
Notation "' p <- m ;; k" := (bind m (fun p => k))
  (at level 61, p pattern, m at next level, right associativity).

(** [max(a, b)] and [min(a, b)] of Python keep the first argument unless the
    second one is strictly greater (smaller). *)
Definition py_max (a b : R) : R := if b >? a then b else a.
Definition py_min (a b : R) : R := if b <? a then b else a.

(** [def clamp(x, a, b): return max(a, min(b, x))] *)
Definition clamp (x a b : R) : R := py_max a (py_min b x).

(** [math.copysign(x, y)]: the magnitude of [x] with the sign of [y]. *)
Definition copysign (x y : R) : R := if y <? 0 then - Rabs x else Rabs x.

(** [x / y] on floats. *)
Definition fdiv (x y : R) : option R :=
  if y =? 0 then None else Some (x / y).

(** The real power [t ^ g] of a base [t >= 0], with [0 ^ 0 = 1]. *)
Definition rpow (t g : R) : R :=
  if t =? 0 then (if g =? 0 then 1 else 0) else Rpower t g.

(** [x ** y] on floats, for a base [x >= 0]: zero to a negative power
    raises.  A negative base is never passed by this program (the base is
    always the result of [clamp _ 0 1]); it is given no result here. *)
Definition py_pow (x y : R) : option R :=
  if x <? 0 then None
  else if (x =? 0) && (y <? 0) then None
  else Some (rpow x y).

(** ** Configuration: the [cfg] dictionary of [main] *)

Record config : Type := mkConfig {
  deadzone_deg : R;
  gamma_pos : R;
  gamma_neg : R;
  angle_max_pl_deg : R;
  angle_max_df_deg : R;
  v_max : R;
  v_rev_max : R;
  a_max : R;
  a_rev_max : R;
  px_per_m : R;
  drag : R;
  start_countdown : R;
  target_front : R;
  target_back : R;
  angle_enter_deg : R;
  angle_exit_deg : R;
  rep_time : R;
  rest_time : R;
  reps_each : Z;
  settle_time : R;
  settle_tol_deg : R;
  settle_max : R
}.

Definition main_cfg : config := {|
  deadzone_deg := 2;
  gamma_pos := 9 / 10;
  gamma_neg := 9 / 10;
  angle_max_pl_deg := 30;
  angle_max_df_deg := 30;
  v_max := 980;
  v_rev_max := 600;
  a_max := 1200;
  a_rev_max := 900;
  px_per_m := 70;
  drag := 180;
  start_countdown := 8;
  target_front := 20;
  target_back := -20;
  angle_enter_deg := 3;
  angle_exit_deg := 2;
  rep_time := 10;
  rest_time := 2;
  reps_each := 5;
  settle_time := 3;
  settle_tol_deg := 5 / 2;
  settle_max := 6
|}.

(** ** Actuation mapper: [map_thr_rev] *)

Definition map_thr_rev (angle : R) (cfg : config) : option (R * R) :=
  let dz := deadzone_deg cfg in
  let a := angle in
  if Rabs a <? dz then Some (0, 0)
  else
    let a_eff := copysign (Rabs a - dz) a in
    if a_eff >? 0 then
      q <- fdiv a_eff (angle_max_pl_deg cfg) ;;
      let t := clamp q 0 1 in
      p <- py_pow t (gamma_pos cfg) ;;
      Some (p, 0)
    else
      q <- fdiv (- a_eff) (angle_max_df_deg cfg) ;;
      let t := clamp q 0 1 in
      p <- py_pow t (gamma_neg cfg) ;;
      Some (0, p).

(** The mapper in the words of the design document (section 4.3). *)
Definition sign (a : R) : R :=
  if a <? 0 then -1 else if a >? 0 then 1 else 0.

Definition actuation_spec (angle : R) (cfg : config) : R * R :=
  if Rabs angle <? deadzone_deg cfg then (0, 0)
  else
    let a_eff := sign angle * (Rabs angle - deadzone_deg cfg) in
    if a_eff >? 0 then
      (rpow (clamp (a_eff / angle_max_pl_deg cfg) 0 1) (gamma_pos cfg), 0)
    else
      (0, rpow (clamp (- a_eff / angle_max_df_deg cfg) 0 1) (gamma_neg cfg)).

(** ** Phase protocol *)

(** The phase names of the protocol.  [DESCANSO] stands for the rest phase,
    which the loop treats as "any other name". *)
Inductive phase : Type := TRAS | TRANSICAO | FRENTE | DESCANSO.

Definition phase_eqb (p q : phase) : bool :=
  match p, q with
  | TRAS, TRAS | TRANSICAO, TRANSICAO | FRENTE, FRENTE | DESCANSO, DESCANSO => true
  | _, _ => false
  end.

Definition block (cfg : config) : list (phase * R) :=
  [(TRAS, rep_time cfg); (TRANSICAO, settle_max cfg);
   (FRENTE, rep_time cfg); (TRANSICAO, settle_max cfg)].

(** [for _ in range(n): seq += [...]] *)
Fixpoint seq_loop (cfg : config) (n : nat) (seq : list (phase * R))
  : list (phase * R) :=
  match n with
  | O => seq
  | S k => seq_loop cfg k (seq ++ block cfg)
  end.

(** [range(n)] is empty for a negative [n]. *)
Definition build_seq (cfg : config) : list (phase * R) :=
  seq_loop cfg (Z.to_nat (reps_each cfg)) [].

Definition total_reps (cfg : config) : Z := (reps_each cfg * 2)%Z.

(** ** State of the loop: the local variables of [main] *)

(** [angle_state] and [speed_state] take these three values. *)
Inductive command : Type := neutral | forward | reverse.

(** A float stored in a report row: [float("nan")] or a finite value. *)
Inductive fval : Type := NaN | Fin (x : R).

(** One dictionary of [report_rows]. *)
Record row : Type := mkRow {
  dir : phase;
  ang_ext : fval;
  t_target : fval
}.

(** The text chosen for [banner_text]. *)
Inductive banner_t : Type :=
| CALIBRANDO
| BATERIA_BAIXA (v : R)
| PRESSIONE_ESPACO
| PREPARE_SE
| SESSAO_CONCLUIDA
| FASE (p : phase).

(** Calibration ("Calibração"). *)
Record calibration : Type := mkCal {
  zero : R;
  calibrating : bool;
  cal_t0 : R;
  cal_buf : list R
}.

(** Session flags, phases and the settle accumulators ("Fases",
    "Transição (zero)"). *)
Record protocol : Type := mkProto {
  started : bool;
  start_cd_left : R;
  session_done : bool;
  idx : nat;
  phase_name : phase;
  phase_left : R;
  reps_done : nat;
  settle_ok_time : R;
  settle_total_time : R
}.

(** Metrics of the repetition in progress ("Métricas"). *)
Record metrics : Type := mkMetrics {
  rep_ang_ext : option R;
  rep_hit : bool;
  rep_t_to_target : option R;
  rep_t_elapsed : R
}.

(** Kinematics and the average-speed accumulators. *)
Record kinematics : Type := mkKin {
  speed : R;
  dist_signed_px : R;
  road_x : R;
  far_ofs : R;
  mid_ofs : R;
  acc_abs_dist_m : R;
  acc_time_s : R
}.

Record state : Type := mkState {
  running : bool;
  cal : calibration;
  proto : protocol;
  rep : metrics;
  report_rows : list row;
  kin : kinematics;
  angle : R;
  ang_rate : R;
  prev_angle_used : R;
  angle_state : command;
  session_t0 : option R;
  banner : option banner_t;
  restart_btn_rect : Z * Z * Z * Z
}.

(** ** Inputs of one frame *)

Inductive key : Type := K_ESCAPE | K_SPACE | K_r | K_c | K_z | K_other.

Inductive event : Type :=
| QUIT
| KEYDOWN (k : key)
| MOUSEBUTTONDOWN (pos : Z * Z)
| OTHER.

Record frame : Type := mkFrame {
  dt : R;                   (* clock.tick(60) / 1000.0 *)
  events : list event;      (* pygame.event.get() *)
  now : R;                  (* time.time() *)
  last_angle : R;           (* imu.last_angle *)
  battery_v : option R      (* imu.battery_v *)
}.

Definition CAL_TIME : R := 4.

(** ** Events and [reset_session] *)

Definition fresh_metrics : metrics :=
  {| rep_ang_ext := None; rep_hit := false;
     rep_t_to_target := None; rep_t_elapsed := 0 |}.

Definition still : kinematics :=
  {| speed := 0; dist_signed_px := 0; road_x := 0; far_ofs := 0; mid_ofs := 0;
     acc_abs_dist_m := 0; acc_time_s := 0 |}.

(** [reset_session()]; [seq[0]] raises [IndexError] on an empty protocol. *)
Definition reset_session (cfg : config) (seq : list (phase * R)) (t : R)
    (s : state) : option state :=
  ' (name, dur) <- nth_error seq 0 ;;
  Some {| running := running s;
          cal := cal s;
          proto := {| started := true;
                      start_cd_left := start_countdown cfg;
                      session_done := false;
                      idx := 0;
                      phase_name := name;
                      phase_left := dur;
                      reps_done := 0;
                      settle_ok_time := 0;
                      settle_total_time := 0 |};
          rep := fresh_metrics;
          report_rows := [];
          kin := still;
          angle := angle s;
          ang_rate := ang_rate s;
          prev_angle_used := 0;
          angle_state := neutral;
          session_t0 := Some t;
          banner := banner s;
          restart_btn_rect := restart_btn_rect s |}.

Definition stop_running (s : state) : state :=
  {| running := false;
     cal := cal s; proto := proto s; rep := rep s;
     report_rows := report_rows s; kin := kin s;
     angle := angle s; ang_rate := ang_rate s;
     prev_angle_used := prev_angle_used s; angle_state := angle_state s;
     session_t0 := session_t0 s; banner := banner s;
     restart_btn_rect := restart_btn_rect s |}.

(** Key [c]: [calibrating = True; cal_t0 = time.time(); cal_buf = []]. *)
Definition start_calibration (t : R) (s : state) : state :=
  {| running := running s;
     cal := {| zero := zero (cal s); calibrating := true;
               cal_t0 := t; cal_buf := [] |};
     proto := proto s; rep := rep s;
     report_rows := report_rows s; kin := kin s;
     angle := angle s; ang_rate := ang_rate s;
     prev_angle_used := prev_angle_used s; angle_state := angle_state s;
     session_t0 := session_t0 s; banner := banner s;
     restart_btn_rect := restart_btn_rect s |}.

(** [pygame.Rect.collidepoint]. *)
Definition collidepoint (r : Z * Z * Z * Z) (pos : Z * Z) : bool :=
  let '(x, y, w, h) := r in
  let '(px, py) := pos in
  ((x <=? px) && (px <? x + w) && (y <=? py) && (py <? y + h))%Z.

(** The body of [for e in pygame.event.get()].  Key [z] only writes a byte
    to the sensor link and changes no variable of the loop. *)
Definition handle_event (cfg : config) (seq : list (phase * R)) (t : R)
    (s : state) (e : event) : option state :=
  match e with
  | QUIT => Some (stop_running s)
  | KEYDOWN K_ESCAPE => Some (stop_running s)
  | KEYDOWN K_SPACE =>
      if negb (started (proto s)) then reset_session cfg seq t s else Some s
  | KEYDOWN K_r =>
      if session_done (proto s) then reset_session cfg seq t s else Some s
  | KEYDOWN K_c => Some (start_calibration t s)
  | KEYDOWN K_z => Some s
  | KEYDOWN K_other => Some s
  | MOUSEBUTTONDOWN pos =>
      if session_done (proto s) then
        if collidepoint (restart_btn_rect s) pos
        then reset_session cfg seq t s else Some s
      else Some s
  | OTHER => Some s
  end.

Fixpoint handle_events (cfg : config) (seq : list (phase * R)) (t : R)
    (s : state) (es : list event) : option state :=
  match es with
  | [] => Some s
  | e :: es' =>
      s' <- handle_event cfg seq t s e ;;
      handle_events cfg seq t s' es'
  end.

(** ** One frame of the loop *)

(** [sum(cal_buf) / max(1, len(cal_buf))]; the divisor is at least 1. *)
Definition mean (l : list R) : R :=
  fold_left Rplus l 0 / INR (Nat.max 1 (length l)).

(** "Leitura & Calibração". *)
Definition read_calibration (f : frame) (c : calibration) : calibration :=
  if calibrating c then
    let buf := cal_buf c ++ [last_angle f] in
    if now f - cal_t0 c >=? CAL_TIME then
      {| zero := mean buf; calibrating := false;
         cal_t0 := cal_t0 c; cal_buf := buf |}
    else
      {| zero := zero c; calibrating := true;
         cal_t0 := cal_t0 c; cal_buf := buf |}
  else c.

(** [(not started) or start_cd_left>0 or calibrating or session_done] *)
Definition idle (c : calibration) (p : protocol) : bool :=
  negb (started p) || (start_cd_left p >? 0) || calibrating c
  || session_done p.

(** [started and start_cd_left<=0 and not calibrating and not session_done] *)
Definition active (c : calibration) (p : protocol) : bool :=
  started p && (start_cd_left p <=? 0) && negb (calibrating c)
  && negb (session_done p).

Definition angle_used (raw : R) (c : calibration) (p : protocol) : R :=
  if idle c p then 0 else raw - zero c.

(** [max(1e-3, dt)] is never zero. *)
Definition angle_rate (d raw prev : R) (c : calibration) (p : protocol) : R :=
  if idle c p then 0
  else (angle_used raw c p - prev) / py_max (1 / 1000) d.

(** "Estado por histerese": the three branches on [angle_state]. *)
Definition hysteresis (cfg : config) (a : R) (st : command) : command :=
  match st with
  | neutral =>
      if a >=? angle_enter_deg cfg then forward
      else if a <=? - angle_enter_deg cfg then reverse
      else neutral
  | forward => if a <? angle_exit_deg cfg then neutral else forward
  | reverse => if a >? - angle_exit_deg cfg then neutral else reverse
  end.

Definition classify (cfg : config) (c : calibration) (p : protocol) (a : R)
    (st : command) : command :=
  if negb (idle c p) then hysteresis cfg a st else neutral.

(** [imu.battery_v is not None and imu.battery_v < 3.6] *)
Definition low_battery (b : option R) : bool :=
  match b with
  | Some v => v <? 36 / 10
  | None => false
  end.

(** [idx += 1], then [session_done = True] when [idx >= len(seq)], else
    [phase_name, phase_left = seq[idx]]. *)
Definition advance (seq : list (phase * R)) (p : protocol) : protocol :=
  match nth_error seq (S (idx p)) with
  | None =>
      {| started := started p; start_cd_left := start_cd_left p;
         session_done := true;
         idx := S (idx p);
         phase_name := phase_name p; phase_left := phase_left p;
         reps_done := reps_done p;
         settle_ok_time := settle_ok_time p;
         settle_total_time := settle_total_time p |}
  | Some (name, dur) =>
      {| started := started p; start_cd_left := start_cd_left p;
         session_done := session_done p;
         idx := S (idx p);
         phase_name := name; phase_left := dur;
         reps_done := reps_done p;
         settle_ok_time := settle_ok_time p;
         settle_total_time := settle_total_time p |}
  end.

Definition is_rep (ph : phase) : bool :=
  match ph with
  | TRAS | FRENTE => true
  | TRANSICAO | DESCANSO => false
  end.

Definition or_default (o : option R) (d : R) : R :=
  match o with
  | Some x => x
  | None => d
  end.

Definition or_nan (o : option R) : fval :=
  match o with
  | Some x => Fin x
  | None => NaN
  end.

(** The extreme stored in a row: [max(0.0, ext)] for FRENTE and
    [min(0.0, ext)] otherwise, with [0.0] for a missing extreme. *)
Definition final_extreme (ph : phase) (ext : option R) : R :=
  if phase_eqb ph FRENTE then py_max 0 (or_default ext 0)
  else py_min 0 (or_default ext 0).

Definition rep_row (ph : phase) (m : metrics) : row :=
  {| dir := ph;
     ang_ext := Fin (final_extreme ph (rep_ang_ext m));
     t_target := or_nan (rep_t_to_target m) |}.

(** The TRANSIÇÃO branch of the running phase. *)
Definition settle_step (cfg : config) (seq : list (phase * R)) (d a : R)
    (p : protocol) : protocol :=
  let total := settle_total_time p + d in
  let ok := if Rabs a <=? settle_tol_deg cfg then settle_ok_time p + d else 0 in
  let left := phase_left p - d in
  if (ok >=? settle_time cfg) || (total >=? settle_max cfg) then
    advance seq
      {| started := started p; start_cd_left := start_cd_left p;
         session_done := session_done p;
         idx := idx p; phase_name := phase_name p; phase_left := left;
         reps_done := reps_done p;
         settle_ok_time := 0; settle_total_time := 0 |}
  else
    {| started := started p; start_cd_left := start_cd_left p;
       session_done := session_done p;
       idx := idx p; phase_name := phase_name p; phase_left := left;
       reps_done := reps_done p;
       settle_ok_time := ok; settle_total_time := total |}.

(** The timed branch of the running phase (TRÁS, FRENTE and rest). *)
Definition timed_step (seq : list (phase * R)) (d : R)
    (p : protocol) (m : metrics) (rows : list row)
  : protocol * metrics * list row :=
  let left := phase_left p - d in
  if left <=? 0 then
    if is_rep (phase_name p) then
      (advance seq
         {| started := started p; start_cd_left := start_cd_left p;
            session_done := session_done p;
            idx := idx p; phase_name := phase_name p; phase_left := left;
            reps_done := S (reps_done p);
            settle_ok_time := settle_ok_time p;
            settle_total_time := settle_total_time p |},
       fresh_metrics,
       rows ++ [rep_row (phase_name p) m])
    else
      (advance seq
         {| started := started p; start_cd_left := start_cd_left p;
            session_done := session_done p;
            idx := idx p; phase_name := phase_name p; phase_left := left;
            reps_done := reps_done p;
            settle_ok_time := settle_ok_time p;
            settle_total_time := settle_total_time p |},
       m, rows)
  else
    ({| started := started p; start_cd_left := start_cd_left p;
        session_done := session_done p;
        idx := idx p; phase_name := phase_name p; phase_left := left;
        reps_done := reps_done p;
        settle_ok_time := settle_ok_time p;
        settle_total_time := settle_total_time p |},
     m, rows).

Definition phase_step (cfg : config) (seq : list (phase * R)) (d a : R)
    (p : protocol) (m : metrics) (rows : list row)
  : protocol * metrics * list row :=
  if phase_eqb (phase_name p) TRANSICAO
  then (settle_step cfg seq d a p, m, rows)
  else timed_step seq d p m rows.

(** [start_cd_left -= dt] *)
Definition count_down (d : R) (p : protocol) : protocol :=
  {| started := started p; start_cd_left := start_cd_left p - d;
     session_done := session_done p;
     idx := idx p; phase_name := phase_name p; phase_left := phase_left p;
     reps_done := reps_done p;
     settle_ok_time := settle_ok_time p;
     settle_total_time := settle_total_time p |}.

(** "Banners & Fases": the [if]/[elif] chain that picks the banner; the
    countdown and the phases advance inside its last branches. *)
Definition banner_phases (cfg : config) (seq : list (phase * R)) (f : frame)
    (a : R) (c : calibration) (p : protocol) (m : metrics) (rows : list row)
  : banner_t * (protocol * metrics * list row) :=
  if calibrating c then (CALIBRANDO, (p, m, rows))
  else if low_battery (battery_v f)
  then (BATERIA_BAIXA (or_default (battery_v f) 0), (p, m, rows))
  else if negb (started p) then (PRESSIONE_ESPACO, (p, m, rows))
  else if start_cd_left p >? 0 then (PREPARE_SE, (count_down (dt f) p, m, rows))
  else if session_done p then (SESSAO_CONCLUIDA, (p, m, rows))
  else (FASE (phase_name p), phase_step cfg seq (dt f) a p m rows).

(** "Métricas por repetição", the body under [phase_name in (TRÁS, FRENTE)]. *)
Definition target_reached (cfg : config) (ph : phase) (a : R) : bool :=
  (phase_eqb ph FRENTE && (a >=? target_front cfg))
  || (phase_eqb ph TRAS && (a <=? target_back cfg)).

Definition update_metrics (cfg : config) (ph : phase) (d a : R) (m : metrics)
  : metrics :=
  let elapsed := rep_t_elapsed m + d in
  let ext :=
    match rep_ang_ext m with
    | None => a
    | Some e => if phase_eqb ph FRENTE then py_max e a else py_min e a
    end in
  if negb (rep_hit m) && target_reached cfg ph a then
    {| rep_ang_ext := Some ext; rep_hit := true;
       rep_t_to_target := Some elapsed; rep_t_elapsed := elapsed |}
  else
    {| rep_ang_ext := Some ext; rep_hit := rep_hit m;
       rep_t_to_target := rep_t_to_target m; rep_t_elapsed := elapsed |}.

Definition rep_metrics (cfg : config) (d a : R) (c : calibration)
    (p : protocol) (m : metrics) : metrics :=
  if active c p && is_rep (phase_name p)
  then update_metrics cfg (phase_name p) d a m
  else m.

(** "Física". *)
Definition halted (c : calibration) (p : protocol) : bool :=
  negb (started p) || (start_cd_left p >? 0) || calibrating c
  || session_done p || phase_eqb (phase_name p) TRANSICAO.

Definition moving (c : calibration) (p : protocol) : bool :=
  started p && (start_cd_left p <=? 0) && negb (calibrating c)
  && negb (session_done p) && negb (phase_eqb (phase_name p) TRANSICAO).

Definition physics (cfg : config) (d a : R) (c : calibration) (p : protocol)
    (k : kinematics) : option kinematics :=
  ' (thr, rev) <- map_thr_rev a cfg ;;
  q <- fdiv (speed k) (v_max cfg) ;;
  let accel := a_max cfg * thr - a_rev_max cfg * rev - drag cfg * q in
  let accel := if halted c p then 0 else accel in
  let v := if halted c p then 0 else speed k in
  let v := v + accel * d in
  let v := clamp v (- v_rev_max cfg) (v_max cfg) in
  if moving c p then
    m <- fdiv (Rabs v * d) (px_per_m cfg) ;;
    Some {| speed := v;
            dist_signed_px := dist_signed_px k + v * d;
            road_x := road_x k + v * d;
            far_ofs := far_ofs k + v * d * (6 / 10);
            mid_ofs := mid_ofs k + v * d;
            acc_abs_dist_m := acc_abs_dist_m k + m;
            acc_time_s := acc_time_s k + d |}
  else
    Some {| speed := v;
            dist_signed_px := dist_signed_px k;
            road_x := road_x k;
            far_ofs := far_ofs k;
            mid_ofs := mid_ofs k;
            acc_abs_dist_m := acc_abs_dist_m k;
            acc_time_s := acc_time_s k |}.

(** [draw_report] moves the restart button to its place; nothing else of
    the drawing code changes a variable of the loop. *)
Definition button_rect (p : protocol) (r : Z * Z * Z * Z) : Z * Z * Z * Z :=
  if session_done p then (510, 620, 260, 56)%Z else r.

(** The body of [while running]. *)
Definition tick (cfg : config) (seq : list (phase * R)) (s : state)
    (f : frame) : option state :=
  s1 <- handle_events cfg seq (now f) s (events f) ;;
  let c := read_calibration f (cal s1) in
  let a := angle_used (last_angle f) c (proto s1) in
  let r := angle_rate (dt f) (last_angle f) (prev_angle_used s1) c (proto s1) in
  let st := classify cfg c (proto s1) a (angle_state s1) in
  let '(b, (p, m, rows)) :=
    banner_phases cfg seq f a c (proto s1) (rep s1) (report_rows s1) in
  let m := rep_metrics cfg (dt f) a c p m in
  k <- physics cfg (dt f) a c p (kin s1) ;;
  Some {| running := running s1;
          cal := c;
          proto := p;
          rep := m;
          report_rows := rows;
          kin := k;
          angle := a;
          ang_rate := r;
          prev_angle_used := a;
          angle_state := st;
          session_t0 := session_t0 s1;
          banner := Some b;
          restart_btn_rect := button_rect p (restart_btn_rect s1) |}.

(** The variables of [main] before the first frame; [seq[0]] must exist. *)
Definition init_state (seq : list (phase * R)) (t : R) : option state :=
  ' (name, dur) <- nth_error seq 0 ;;
  Some {| running := true;
          cal := {| zero := 0; calibrating := true;
                    cal_t0 := t; cal_buf := [] |};
          proto := {| started := false; start_cd_left := 0;
                      session_done := false;
                      idx := 0; phase_name := name; phase_left := dur;
                      reps_done := 0;
                      settle_ok_time := 0; settle_total_time := 0 |};
          rep := fresh_metrics;
          report_rows := [];
          kin := still;
          angle := 0;
          ang_rate := 0;
          prev_angle_used := 0;
          angle_state := neutral;
          session_t0 := None;
          banner := None;
          restart_btn_rect := (0, 0, 0, 0)%Z |}.

(** [while running: ...] over the frames that are played. *)
Fixpoint run (cfg : config) (seq : list (phase * R)) (s : state)
    (fs : list frame) : option state :=
  match fs with
  | [] => Some s
  | f :: fs' =>
      if running s then
        s' <- tick cfg seq s f ;;
        run cfg seq s' fs'
      else Some s
  end.

(** ** Well-formed configurations *)

(** What [map_thr_rev] needs of a configuration to return for every angle
    and to stay inside the unit interval: a non-negative deadzone, non-zero
    angle ranges and non-negative exponents. *)
Definition mapper_ok (cfg : config) : Prop :=
  0 <= deadzone_deg cfg /\
  angle_max_pl_deg cfg <> 0 /\ angle_max_df_deg cfg <> 0 /\
  0 <= gamma_pos cfg /\ 0 <= gamma_neg cfg.

(** What a frame needs of a configuration never to raise: moreover the
    divisors [v_max] and [px_per_m] of the kinematic model are not zero. *)
Definition config_ok (cfg : config) : Prop :=
  mapper_ok cfg /\ v_max cfg <> 0 /\ px_per_m cfg <> 0.

(** ** Vocabulary of the session state machine *)

(** The frame reaches the phase logic: no branch of the banner chain before
    the last one is taken. *)
Definition phase_running (f : frame) (c : calibration) (p : protocol) : bool :=
  negb (calibrating c) && negb (low_battery (battery_v f))
  && started p && negb (start_cd_left p >? 0) && negb (session_done p).

(** A repetition phase (TRÁS or FRENTE) ends in this frame: the phase logic
    runs and the remaining time reaches 0. *)
Definition rep_ends (f : frame) (c : calibration) (p : protocol) : bool :=
  phase_running f c p && is_rep (phase_name p)
  && (phase_left p - dt f <=? 0).

(** Events that change no variable of a session under way: everything
    except the key that starts a calibration and the quit requests. *)
Definition plain_event (e : event) : bool :=
  match e with
  | KEYDOWN K_c => false
  | QUIT | KEYDOWN K_ESCAPE => false
  | _ => true
  end.

(** A frame without calibration or quit request and without low-battery
    reading. *)
Definition plain (f : frame) : bool :=
  forallb plain_event (events f) && negb (low_battery (battery_v f)).

(** A session under way, past the countdown and not calibrating. *)
Definition in_session (s : state) : Prop :=
  running s = true /\ calibrating (cal s) = false /\
  started (proto s) = true /\ start_cd_left (proto s) <= 0 /\
  session_done (proto s) = false.

(** The state after [reset_session] at time [t], with [(name, dur)] the
    first phase of the protocol: the "full reset" of the design document. *)
Definition reset_state (cfg : config) (name : phase) (dur t : R)
    (s' : state) : Prop :=
  proto s' = {| started := true; start_cd_left := start_countdown cfg;
                session_done := false; idx := 0;
                phase_name := name; phase_left := dur; reps_done := 0;
                settle_ok_time := 0; settle_total_time := 0 |} /\
  rep s' = fresh_metrics /\
  report_rows s' = [] /\
  kin s' = still /\
  prev_angle_used s' = 0 /\
  angle_state s' = neutral /\
  session_t0 s' = Some t.

(** The states of the classifier along a sequence of angles, while the
    session is controllable. *)
Fixpoint hysteresis_trace (cfg : config) (st : command) (angles : list R)
  : list command :=
  match angles with
  | [] => []
  | a :: rest =>
      let st' := hysteresis cfg a st in
      st' :: hysteresis_trace cfg st' rest
  end.

(** Time played by a list of frames. *)
Definition total_dt (fs : list frame) : R :=
  fold_right (fun f t => dt f + t) 0 fs.

(** The samples (frame duration, calibrated angle) that a list of frames
    feeds to the repetition metrics, for a zero offset [z]. *)
Definition samples (z : R) (fs : list frame) : list (R * R) :=
  map (fun f => (dt f, last_angle f - z)) fs.

(** The metrics of a repetition of kind [ph] after the samples [xs]. *)
Definition collect (cfg : config) (ph : phase) (m : metrics)
    (xs : list (R * R)) : metrics :=
  fold_left (fun m x => update_metrics cfg ph (fst x) (snd x) m) xs m.

(** Time covered by a list of samples. *)
Definition elapsed (xs : list (R * R)) : R :=
  fold_right (fun x t => fst x + t) 0 xs.


(** The same frame with another battery reading. *)
Definition with_battery (f : frame) (b : option R) : frame :=
  {| dt := dt f; events := events f; now := now f;
     last_angle := last_angle f; battery_v := b |}.

(** ** Sample states and frames *)

Definition main_seq : list (phase * R) := build_seq main_cfg.

Definition calibrated : calibration :=
  {| zero := 0; calibrating := false; cal_t0 := 0; cal_buf := [] |}.

(** A started session in phase number [i], named [ph], with [left] seconds
    to go, [cd] seconds of countdown left and [reps] repetitions done. *)
Definition at_phase (i : nat) (ph : phase) (left cd : R) (reps : nat)
  : protocol :=
  {| started := true; start_cd_left := cd; session_done := false;
     idx := i; phase_name := ph; phase_left := left; reps_done := reps;
     settle_ok_time := 0; settle_total_time := 0 |}.

Definition sample_state (p : protocol) (m : metrics) (rows : list row)
  : state :=
  {| running := true; cal := calibrated; proto := p; rep := m;
     report_rows := rows; kin := still;
     angle := 0; ang_rate := 0; prev_angle_used := 0;
     angle_state := neutral; session_t0 := Some 0; banner := None;
     restart_btn_rect := (0, 0, 0, 0)%Z |}.

(** A frame of [d] seconds with sensor angle [a] and battery reading [b],
    without events. *)
Definition sample_frame (d a : R) (b : option R) : frame :=
  {| dt := d; events := []; now := 100; last_angle := a; battery_v := b |}.

(** At the start of the first transition, after one repetition. *)
Definition transition_start : state :=
  sample_state (at_phase 1 TRANSICAO 6 0 1) fresh_metrics
    [ {| dir := TRAS; ang_ext := Fin (-21); t_target := Fin 3 |} ].

(** At the start of the second repetition (FRENTE), metrics still fresh. *)
Definition front_start : state :=
  sample_state (at_phase 2 FRENTE 10 0 1) fresh_metrics
    [ {| dir := TRAS; ang_ext := Fin (-21); t_target := Fin 3 |} ].

(** In the middle of the third phase (FRENTE), one row already reported. *)
Definition mid_run : state :=
  sample_state (at_phase 2 FRENTE 4 0 1)
    {| rep_ang_ext := Some 12; rep_hit := false;
       rep_t_to_target := None; rep_t_elapsed := 6 |}
    [ {| dir := TRAS; ang_ext := Fin (-21); t_target := Fin 3 |} ].

(** During the start countdown, and at the start of the first phase. *)
Definition in_countdown : state :=
  sample_state (at_phase 0 TRAS 10 8 0) fresh_metrics [].

Definition first_phase : state :=
  sample_state (at_phase 0 TRAS 10 0 0) fresh_metrics [].

(** A completed session showing its report. *)
Definition completed : state :=
  {| running := true; cal := calibrated;
     proto := {| started := true; start_cd_left := 0; session_done := true;
                 idx := 20; phase_name := TRANSICAO; phase_left := 3;
                 reps_done := 10;
                 settle_ok_time := 0; settle_total_time := 0 |};
     rep := fresh_metrics;
     report_rows := [ {| dir := TRAS; ang_ext := Fin (-21); t_target := Fin 3 |} ];
     kin := still;
     angle := 0; ang_rate := 0; prev_angle_used := 0;
     angle_state := neutral; session_t0 := Some 0;
     banner := Some SESSAO_CONCLUIDA;
     restart_btn_rect := (510, 620, 260, 56)%Z |}.

(** ** The low-pass filter: class [LowPass] *)

Module LowPass.

(** The attributes [a], [y] and [init] of a filter. *)
Record t : Type := mk {
  a : R;
  y : R;
  init : bool
}.

(** [LowPass(a)] *)
Definition new (a0 : R) : t := {| a := a0; y := 0; init := false |}.

(** [update(x)]; the value returned is the field [y] of the result. *)
Definition update (f : t) (x : R) : t :=
  if negb (init f) then {| a := a f; y := x; init := true |}
  else {| a := a f; y := a f * x + (1 - a f) * y f; init := true |}.


End LowPass.

(** ** Units and the average speed *)



(** ** The states of a run *)

(** The states the loop can be in: the one before the first frame, and
    those left by a frame played from a state that is still running.
    [clock.tick] returns a number of milliseconds, so [dt] is never
    negative. *)
Inductive reachable (cfg : config) (seq : list (phase * R)) : state -> Prop :=
| reach_init (t : R) (s : state) :
    init_state seq t = Some s -> reachable cfg seq s
| reach_tick (s s' : state) (f : frame) :
    reachable cfg seq s -> running s = true -> 0 <= dt f ->
    tick cfg seq s f = Some s' -> reachable cfg seq s'.

(** The repetition phases among the names of a protocol. *)
Definition rep_phases (seq : list (phase * R)) : list phase :=
  filter is_rep (map fst seq).

(** A row as the loop builds them: direction TRÁS or FRENTE, a finite
    extreme on the side of the direction, and a time to target that is
    absent or not negative. *)
Definition row_ok (r : row) : Prop :=
  is_rep (dir r) = true /\
  (exists e, ang_ext r = Fin e /\
             (dir r = FRENTE -> 0 <= e) /\ (dir r = TRAS -> e <= 0)) /\
  (forall t, t_target r = Fin t -> 0 <= t).

(** The largest and the smallest angle of a non-empty list of samples. *)
Fixpoint max_angle (x : R * R) (xs : list (R * R)) : R :=
  match xs with
  | [] => snd x
  | x' :: rest => Rmax (snd x) (max_angle x' rest)
  end.

Fixpoint min_angle (x : R * R) (xs : list (R * R)) : R :=
  match xs with
  | [] => snd x
  | x' :: rest => Rmin (snd x) (min_angle x' rest)
  end.

(** The configuration of [main] with other angle ranges and another
    reverse exponent. *)
Definition sample_cfg (pl df gn : R) : config :=
  {| deadzone_deg := 2;
     gamma_pos := 9 / 10; gamma_neg := gn;
     angle_max_pl_deg := pl; angle_max_df_deg := df;
     v_max := 980; v_rev_max := 600;
     a_max := 1200; a_rev_max := 900;
     px_per_m := 70; drag := 180;
     start_countdown := 8;
     target_front := 20; target_back := -20;
     angle_enter_deg := 3; angle_exit_deg := 2;
     rep_time := 10; rest_time := 2; reps_each := 5;
     settle_time := 3; settle_tol_deg := 5 / 2; settle_max := 6 |}.

(** ** Invariants of the session *)

(** A protocol record with other timers and another repetition count. *)
Definition set_timers (p : protocol) (left ok total : R) (reps : nat)
  : protocol :=
  {| started := started p; start_cd_left := start_cd_left p;
     session_done := session_done p;
     idx := idx p; phase_name := phase_name p; phase_left := left;
     reps_done := reps;
     settle_ok_time := ok; settle_total_time := total |}.

(** Position in the protocol and report: the counter is the number of rows,
    the current phase is the one the index points to, a complete session
    has walked the whole protocol, and the rows are the repetition phases
    already left, in order. *)
Definition pos_inv (seq : list (phase * R)) (p : protocol) (rows : list row)
  : Prop :=
  reps_done p = length rows /\
  (session_done p = false ->
   exists dur, nth_error seq (idx p) = Some (phase_name p, dur)) /\
  (session_done p = true -> (length seq <= idx p)%nat) /\
  map dir rows = rep_phases (firstn (idx p) seq).

(** Accumulators at rest: fresh metrics outside the repetition phases, zero
    settle times outside the transitions. *)
Definition acc_inv (p : protocol) (m : metrics) : Prop :=
  (is_rep (phase_name p) = false -> m = fresh_metrics) /\
  (phase_name p <> TRANSICAO ->
   settle_ok_time p = 0 /\ settle_total_time p = 0).

(** Metrics and rows: the hit flag and the time to target go together, the
    time to target lies within the time elapsed, and every row is
    well-formed. *)
Definition met_inv (m : metrics) (rows : list row) : Prop :=
  (rep_hit m = false <-> rep_t_to_target m = None) /\
  (forall t, rep_t_to_target m = Some t -> 0 <= t <= rep_t_elapsed m) /\
  0 <= rep_t_elapsed m /\
  Forall row_ok rows.


Definition state_inv (cfg : config) (seq : list (phase * R)) (s : state)
  : Prop :=
  pos_inv seq (proto s) (report_rows s) /\
  acc_inv (proto s) (rep s) /\
  met_inv (rep s) (report_rows s).

(** The three invariants on the protocol, the metrics and the rows. *)
Definition tri_inv (seq : list (phase * R)) (r : protocol * metrics * list row)
  : Prop :=
  pos_inv seq (fst (fst r)) (snd r) /\
  acc_inv (fst (fst r)) (snd (fst r)) /\
  met_inv (snd (fst r)) (snd r).

(** The frame in which SPACE is pressed, ten seconds after the program
    started, and a later frame of ten seconds with the foot at rest. *)
Definition start_frame : frame :=
  {| dt := 10; events := [KEYDOWN K_SPACE]; now := 10;
     last_angle := 0; battery_v := None |}.

Definition long_frame : frame := sample_frame 10 0 None.

(** ** Values shown on the screen *)

(** [draw_goal_label]: nothing is drawn outside the repetition phases;
    otherwise the label carries the check mark when [hit] holds. *)
Definition goal_label (cfg : config) (ph : phase) (a : R) : option bool :=
  if negb (is_rep ph) then None
  else if phase_eqb ph FRENTE then Some (a >=? target_front cfg)
  else Some (a <=? target_back cfg).

(** [draw_phase_bar]: the filled share [p] of the bar; [t_left/t_total]
    raises for a zero total. *)
Definition bar_fill (t_left t_total : R) : option R :=
  q <- fdiv t_left t_total ;;
  Some (1 - clamp q 0 1).

(** The phase bar of a frame, from the variables as the frame leaves them:
    no bar ([Some None]) unless the session is under way in a repetition or
    a transition; [None] when drawing it raises. *)
Definition phase_bar (cfg : config) (s : state) : option (option R) :=
  if active (cal s) (proto s) then
    if is_rep (phase_name (proto s)) then
      p <- bar_fill (phase_left (proto s)) (rep_time cfg) ;;
      Some (Some p)
    else if phase_eqb (phase_name (proto s)) TRANSICAO then
      let total := py_max (settle_time cfg) (1 / 100) in
      let temp_left := py_max 0 (total - settle_ok_time (proto s)) in
      p <- bar_fill temp_left total ;;
      Some (Some p)
    else Some None
  else Some None.

(** The goal label of a frame, under the same condition as the phase bar. *)
Definition shown_goal (cfg : config) (s : state) : option bool :=
  if active (cal s) (proto s)
  then goal_label cfg (phase_name (proto s)) (angle s)
  else None.






(** ** The sensor thread: class [IMUReader] *)

Module IMU.

Import String.StringSyntax Ascii.AsciiSyntax.
Local Open Scope char_scope.

Definition colon : Ascii.ascii := ":".

Local Close Scope char_scope.
Local Open Scope string_scope.

(** The attributes that the line handling of [run] reads and writes. *)
Record t : Type := mk {
  f : LowPass.t;
  last_angle : R;
  battery_v : option R
}.

(** [IMUReader(port, a)] *)
Definition new (a : R) : t :=
  {| f := LowPass.new a; last_angle := 0; battery_v := None |}.

(** [line.split(":", 1)[1]]: the text after the first colon, [IndexError]
    when the line has none. *)
Fixpoint after_colon (line : String.string) : option String.string :=
  match line with
  | String.EmptyString => None
  | String.String c rest =>
      if Ascii.eqb c colon then Some rest else after_colon rest
  end.

Definition VBAT : String.string := "VBAT:".
Definition ANG : String.string := "ANG:".

Section Lines.

(** [float(text)]; [None] when it raises [ValueError]. *)
Variable float : String.string -> option R.

(** The body of the loop of [run] from the line read on, for the line
    [readline().decode(errors="ignore").strip()].  In the battery branch
    every exception is passed over; an [IndexError] of the angle branch
    would reach the outer handler, which drops the connection and leaves
    these attributes alone. *)
Definition handle_line (st : t) (line : String.string) : t :=
  if String.eqb line String.EmptyString then st
  else if String.prefix VBAT line then
    match after_colon line with
    | Some txt =>
        match float txt with
        | Some v =>
            {| f := f st; last_angle := last_angle st; battery_v := Some v |}
        | None => st
        end
    | None => st
    end
  else
    match (if String.prefix ANG line then after_colon line else Some line) with
    | Some txt =>
        match float txt with
        | Some ang =>
            let f' := LowPass.update (f st) ang in
            {| f := f'; last_angle := LowPass.y f';
               battery_v := battery_v st |}
        | None => st
        end
    | None => st
    end.

(** The lines read one after the other. *)
Definition feed_lines (st : t) (lines : list String.string) : t :=
  fold_left handle_line lines st.

End Lines.

(** [BT_NAME_HINT] *)
Definition BT_NAME_HINT : String.string := "ESP32_WROOM_IMU".

(** [str.lower()], on ASCII text. *)
Definition lower_char (c : Ascii.ascii) : Ascii.ascii :=
  let n := Ascii.nat_of_ascii c in
  if Nat.leb 65 n && Nat.leb n 90 then Ascii.ascii_of_nat (n + 32) else c.

Fixpoint lower (s : String.string) : String.string :=
  match s with
  | String.EmptyString => String.EmptyString
  | String.String c rest => String.String (lower_char c) (lower rest)
  end.

(** [pat in s] on strings. *)
Definition contains (pat s : String.string) : bool :=
  match String.index 0 pat s with
  | Some _ => true
  | None => false
  end.

(** An entry of [list_ports.comports()], with the two attributes read. *)
Record port_info : Type := mkPort {
  description : option String.string;
  device : option String.string
}.

(** [x or ''] *)
Definition or_empty (o : option String.string) : String.string :=
  match o with
  | Some x => x
  | None => String.EmptyString
  end.

(** The test of the loop of [_find_bt_port] on one entry. *)
Definition hinted (p : port_info) : bool :=
  let desc :=
    lower (String.append (or_empty (description p))
             (String.append " " (or_empty (device p)))) in
  contains (lower BT_NAME_HINT) desc
  || contains "bluetooth" desc
  || contains "serial" desc.

(** Truth value of an optional string: [None] and the empty string are
    false. *)
Definition truthy (o : option String.string) : bool :=
  match o with
  | Some x => negb (String.eqb x String.EmptyString)
  | None => false
  end.

(** [_find_bt_port()], for the configured [self.port] and the result of
    [list_ports.comports()], [None] when that call raises. *)
Definition find_bt_port (port : option String.string)
    (comports : option (list port_info)) : option String.string :=
  match comports with
  | None => None
  | Some ports =>
      if truthy port then port
      else
        match find hinted ports with
        | Some p => device p
        | None =>
            match ports with
            | p :: _ => device p
            | [] => None
            end
        end
  end.

(** Two entries: a wired port, and the outgoing port of a paired sensor. *)
Definition wired_port : port_info :=
  {| description := Some "USB Composite Device"; device := Some "COM1" |}.

Definition paired_port : port_info :=
  {| description := Some "Standard SERIAL over Bluetooth link";
     device := Some "COM5" |}.

(** A parser that knows three numerals, and a stream of lines. *)
Definition sample_float (txt : String.string) : option R :=
  if String.eqb txt "12.5" then Some (25 / 2)
  else if String.eqb txt "-3" then Some (-3)
  else if String.eqb txt "3.7" then Some (37 / 10)
  else None.


Definition bare_reading : String.string := "12.5".

End IMU.

(** * Properties *)

Arguments Rltb : simpl never.
Arguments Rleb : simpl never.
Arguments Reqb : simpl never.

(** ** Comparisons *)

Lemma Rltb_spec (a b : R) : reflect (a < b) (a <? b).
Proof. unfold Rltb. destruct (Rlt_dec a b); constructor; assumption. Qed.

Lemma Rleb_spec (a b : R) : reflect (a <= b) (a <=? b).
Proof. unfold Rleb. destruct (Rle_dec a b); constructor; assumption. Qed.

Lemma Reqb_spec (a b : R) : reflect (a = b) (a =? b).
Proof. unfold Reqb. destruct (Req_dec_T a b); constructor; assumption. Qed.

Lemma Rltb_true (a b : R) : a < b -> (a <? b) = true.
Proof. intros H. destruct (Rltb_spec a b); [reflexivity | contradiction]. Qed.

Lemma Rltb_false (a b : R) : b <= a -> (a <? b) = false.
Proof. intros H. destruct (Rltb_spec a b); [lra | reflexivity]. Qed.

Lemma Rleb_true (a b : R) : a <= b -> (a <=? b) = true.
Proof. intros H. destruct (Rleb_spec a b); [reflexivity | contradiction]. Qed.

Lemma Rleb_false (a b : R) : b < a -> (a <=? b) = false.
Proof. intros H. destruct (Rleb_spec a b); [lra | reflexivity]. Qed.

Lemma Reqb_true (a b : R) : a = b -> (a =? b) = true.
Proof. intros H. destruct (Reqb_spec a b); [reflexivity | contradiction]. Qed.

Lemma Reqb_false (a b : R) : a <> b -> (a =? b) = false.
Proof. intros H. destruct (Reqb_spec a b); [contradiction | reflexivity]. Qed.

(** Case analysis on every comparison of the goal, innermost first. *)
Ltac no_cmp t :=
  lazymatch t with
  | context [Rltb _ _] => fail
  | context [Rleb _ _] => fail
  | context [Reqb _ _] => fail
  | _ => idtac
  end.

Ltac rcases :=
  repeat match goal with
  | |- context [Rltb ?a ?b] => no_cmp a; no_cmp b; destruct (Rltb_spec a b)
  | |- context [Rleb ?a ?b] => no_cmp a; no_cmp b; destruct (Rleb_spec a b)
  | |- context [Reqb ?a ?b] => no_cmp a; no_cmp b; destruct (Reqb_spec a b)
  end.

(** Evaluation of the comparisons that linear arithmetic settles. *)
Ltac rdecide :=
  repeat match goal with
  | |- context [Rltb ?a ?b] =>
      first [ rewrite (Rltb_true a b) by lra | rewrite (Rltb_false a b) by lra ]
  | |- context [Rleb ?a ?b] =>
      first [ rewrite (Rleb_true a b) by lra | rewrite (Rleb_false a b) by lra ]
  | |- context [Reqb ?a ?b] =>
      first [ rewrite (Reqb_true a b) by lra | rewrite (Reqb_false a b) by lra ]
  end.

Lemma py_max_Rmax (a b : R) : py_max a b = Rmax a b.
Proof.
  unfold py_max, Rmax. destruct (Rltb_spec a b), (Rle_dec a b); lra.
Qed.

Lemma py_min_Rmin (a b : R) : py_min a b = Rmin a b.
Proof.
  unfold py_min, Rmin. destruct (Rltb_spec b a), (Rle_dec a b); lra.
Qed.

Lemma clamp_lower (x a b : R) : a <= clamp x a b.
Proof. unfold clamp, py_max, py_min. rcases; lra. Qed.

Lemma clamp_upper (x a b : R) : a <= b -> clamp x a b <= b.
Proof. unfold clamp, py_max, py_min. rcases; lra. Qed.

Lemma clamp_inside (x a b : R) : a <= x <= b -> clamp x a b = x.
Proof. intros [Ha Hb]. unfold clamp, py_max, py_min. rcases; lra. Qed.

Lemma clamp_unit (q : R) : 0 <= clamp q 0 1 <= 1.
Proof. split; [apply clamp_lower | apply clamp_upper; lra]. Qed.

(** ** Powers *)

Lemma exp_nonpos (x : R) : x <= 0 -> exp x <= 1.
Proof.
  intros [Hlt | ->].
  - rewrite <- exp_0. left. apply exp_increasing. exact Hlt.
  - rewrite exp_0. lra.
Qed.

Lemma ln_unit (t : R) : 0 < t <= 1 -> ln t <= 0.
Proof.
  intros [Hpos [Hlt | ->]].
  - rewrite <- ln_1. left. apply ln_increasing; assumption.
  - rewrite ln_1. lra.
Qed.

Lemma rpow_unit (t g : R) : 0 <= t <= 1 -> 0 <= g -> 0 <= rpow t g <= 1.
Proof.
  intros [Ht0 Ht1] Hg. unfold rpow.
  destruct (Reqb_spec t 0) as [-> | Hne].
  - destruct (Reqb_spec g 0); lra.
  - unfold Rpower. split.
    + left. apply exp_pos.
    + apply exp_nonpos.
      assert (ln t <= 0) by (apply ln_unit; lra).
      nra.
Qed.

Lemma rpow_zero (g : R) : 0 < g -> rpow 0 g = 0.
Proof.
  intros Hg. unfold rpow. rewrite Reqb_true by reflexivity.
  rewrite Reqb_false by lra. reflexivity.
Qed.

Lemma py_pow_unit (t g : R) :
  0 <= t <= 1 -> 0 <= g -> py_pow t g = Some (rpow t g).
Proof.
  intros Ht Hg. unfold py_pow.
  rewrite Rltb_false by lra.
  rewrite (Rltb_false g 0) by lra.
  rewrite andb_false_r. reflexivity.
Qed.

Lemma fdiv_some (x y : R) : y <> 0 -> fdiv x y = Some (x / y).
Proof. intros H. unfold fdiv. rewrite Reqb_false by assumption. reflexivity. Qed.

(** [0.4667 ** 0.9] lies strictly between 0.503 and 0.504: its tenth power
    is the ninth power of 7/15. *)
Lemma throttle_16_bounds :
  503 / 1000 < Rpower (14 / 30) (9 / 10) < 504 / 1000.
Proof.
  set (y := Rpower (14 / 30) (9 / 10)).
  assert (Hy : 0 < y) by apply exp_pos.
  assert (H10 : y ^ 10 = (14 / 30) ^ 9).
  { rewrite <- (Rpower_pow 10 y Hy). unfold y.
    rewrite Rpower_mult.
    replace (9 / 10 * INR 10) with (INR 9)
      by (rewrite !INR_IZR_INZ; simpl Z.of_nat; lra).
    apply Rpower_pow. lra. }
  split.
  - destruct (Rlt_dec (503 / 1000) y) as [H | H]; [exact H | exfalso].
    assert (Hle : y ^ 10 <= (503 / 1000) ^ 10) by (apply pow_incr; lra).
    rewrite H10 in Hle. revert Hle. clear. simpl. lra.
  - destruct (Rlt_dec y (504 / 1000)) as [H | H]; [exact H | exfalso].
    assert (Hle : (504 / 1000) ^ 10 <= y ^ 10) by (apply pow_incr; lra).
    rewrite H10 in Hle. revert Hle. clear. simpl. lra.
Qed.

(** ** Actuation mapper *)

Lemma main_cfg_mapper_ok : mapper_ok main_cfg.
Proof. unfold mapper_ok; simpl; lra. Qed.

Lemma a_eff_sign (dz a : R) :
  0 <= dz -> ~ Rabs a < dz ->
  copysign (Rabs a - dz) a = sign a * (Rabs a - dz).
Proof.
  intros Hdz Hout. unfold copysign, sign.
  assert (Hge : 0 <= Rabs a - dz) by lra.
  rewrite (Rabs_pos_eq _ Hge).
  destruct (Rltb_spec a 0) as [Hneg | Hnn]; [lra |].
  destruct (Rltb_spec 0 a) as [Hpos | Hnp]; [lra |].
  assert (a = 0) by lra. subst a. rewrite Rabs_R0 in *. lra.
Qed.

Lemma map_thr_rev_refines (cfg : config) (a : R) :
  mapper_ok cfg -> map_thr_rev a cfg = Some (actuation_spec a cfg).
Proof.
  intros (Hdz & Hpl & Hdf & Hgp & Hgn).
  unfold map_thr_rev, actuation_spec.
  destruct (Rltb_spec (Rabs a) (deadzone_deg cfg)) as [Hin | Hout];
    [reflexivity |].
  rewrite (a_eff_sign _ _ Hdz Hout).
  set (a_eff := sign a * (Rabs a - deadzone_deg cfg)).
  destruct (Rltb_spec 0 a_eff) as [Hfwd | Hrev].
  - rewrite (fdiv_some _ _ Hpl). simpl.
    rewrite (py_pow_unit _ _ (clamp_unit _) Hgp). reflexivity.
  - rewrite (fdiv_some _ _ Hdf). simpl.
    rewrite (py_pow_unit _ _ (clamp_unit _) Hgn). reflexivity.
Qed.

Lemma actuation_spec_range (cfg : config) (a : R) :
  0 <= gamma_pos cfg -> 0 <= gamma_neg cfg ->
  0 <= fst (actuation_spec a cfg) <= 1 /\
  0 <= snd (actuation_spec a cfg) <= 1 /\
  (fst (actuation_spec a cfg) = 0 \/ snd (actuation_spec a cfg) = 0).
Proof.
  intros Hgp Hgn. unfold actuation_spec.
  destruct (Rltb_spec (Rabs a) (deadzone_deg cfg)); simpl.
  - repeat split; lra.
  - match goal with |- context [Rltb 0 ?e] => destruct (Rltb_spec 0 e) end;
      simpl.
    + pose proof (rpow_unit _ _ (clamp_unit
        (sign a * (Rabs a - deadzone_deg cfg) / angle_max_pl_deg cfg)) Hgp).
      repeat split; lra.
    + pose proof (rpow_unit _ _ (clamp_unit
        (- (sign a * (Rabs a - deadzone_deg cfg)) / angle_max_df_deg cfg)) Hgn).
      repeat split; lra.
Qed.

Lemma rpow_pos (t g : R) : 0 < t -> rpow t g = Rpower t g.
Proof. intros H. unfold rpow. rewrite Reqb_false by lra. reflexivity. Qed.

(** C7. The mapper returns for every angle, it is the function of the design
    document ([actuation_spec]: (0,0) inside the deadzone, otherwise the
    clamped and curved effective angle on the throttle side when it is
    positive and on the reverse side when it is not), both components lie in
    [0,1] and one of them is zero.  With deadzone 2, forward range 30 and
    forward exponent 0.9, an angle of 16 gives the throttle
    ((16-2)/30)^0.9, within 0.001 of 0.503, with no reverse, and an angle of
    1 gives (0,0). *)
Theorem map_thr_rev_correct (cfg : config) (a : R) :
  mapper_ok cfg ->
  (exists thr rev,
      map_thr_rev a cfg = Some (thr, rev) /\
      (thr, rev) = actuation_spec a cfg /\
      0 <= thr <= 1 /\ 0 <= rev <= 1 /\ (thr = 0 \/ rev = 0)) /\
  (Rabs a < deadzone_deg cfg -> map_thr_rev a cfg = Some (0, 0)) /\
  (deadzone_deg cfg = 2 -> angle_max_pl_deg cfg = 30 ->
   gamma_pos cfg = 9 / 10 ->
   (exists thr,
       map_thr_rev 16 cfg = Some (thr, 0) /\
       thr = Rpower ((16 - 2) / 30) (9 / 10) /\
       Rabs (thr - 503 / 1000) < 1 / 1000) /\
   map_thr_rev 1 cfg = Some (0, 0)).
Proof.
  intros Hok. split; [| split].
  - pose proof (map_thr_rev_refines cfg a Hok) as Href.
    destruct Hok as (_ & _ & _ & Hgp & Hgn).
    pose proof (actuation_spec_range cfg a Hgp Hgn) as Hr.
    destruct (actuation_spec a cfg) as [thr rev]. simpl in Hr.
    exists thr, rev. intuition.
  - intros Hin. unfold map_thr_rev.
    rewrite (Rltb_true _ _ Hin). reflexivity.
  - intros Hdz Hmax Hg. split.
    + exists (Rpower ((16 - 2) / 30) (9 / 10)). split; [| split].
      * rewrite (map_thr_rev_refines cfg 16 Hok). unfold actuation_spec, sign.
        rewrite Hdz, Hmax, Hg.
        assert (H16 : Rabs 16 = 16) by (apply Rabs_pos_eq; lra).
        rewrite H16. rdecide.
        replace (1 * (16 - 2)) with (16 - 2) by lra.
        rewrite clamp_inside by lra.
        rewrite rpow_pos by lra. reflexivity.
      * reflexivity.
      * pose proof throttle_16_bounds as [Hlo Hhi].
        replace ((16 - 2) / 30) with (14 / 30) by lra.
        apply Rabs_def1; lra.
    + unfold map_thr_rev. rewrite Hdz.
      assert (H1 : Rabs 1 = 1) by (apply Rabs_pos_eq; lra).
      rewrite H1. rdecide. reflexivity.
Qed.

Lemma map_thr_rev_correct_witness :
  mapper_ok main_cfg /\
  exists thr, map_thr_rev 16 main_cfg = Some (thr, 0) /\
              Rabs (thr - 503 / 1000) < 1 / 1000.
Proof.
  split.
  - unfold mapper_ok; simpl; lra.
  - destruct (map_thr_rev_correct main_cfg 16) as (_ & _ & Hex).
    + unfold mapper_ok; simpl; lra.
    + destruct Hex as [(thr & Hm & _ & Hb) _]; try reflexivity.
      exists thr. split; assumption.
Defined.

(** C10. On the edge of the deadzone, [|angle| = deadzone], the mapper
    returns (0,0): the effective angle is 0, the test [a_eff > 0] fails, the
    reverse branch clamps 0 to [t = 0] and [0 ** gamma_neg] is 0 for a
    positive exponent. *)
Theorem map_thr_rev_deadzone_edge (cfg : config) (a : R) :
  Rabs a = deadzone_deg cfg ->
  angle_max_df_deg cfg <> 0 ->
  0 < gamma_neg cfg ->
  let a_eff := copysign (Rabs a - deadzone_deg cfg) a in
  a_eff = 0 /\
  (a_eff >? 0) = false /\
  fdiv (- a_eff) (angle_max_df_deg cfg) = Some 0 /\
  clamp 0 0 1 = 0 /\
  py_pow 0 (gamma_neg cfg) = Some 0 /\
  map_thr_rev a cfg = Some (0, 0).
Proof.
  intros Hedge Hdf Hg a_eff.
  assert (Heff : a_eff = 0).
  { unfold a_eff, copysign. rewrite Hedge.
    replace (deadzone_deg cfg - deadzone_deg cfg) with 0 by lra.
    rewrite Rabs_R0. destruct (Rltb_spec a 0); lra. }
  assert (Hdiv : fdiv (- a_eff) (angle_max_df_deg cfg) = Some 0).
  { rewrite (fdiv_some _ _ Hdf), Heff. f_equal. unfold Rdiv. lra. }
  assert (Hcl : clamp 0 0 1 = 0) by (apply clamp_inside; lra).
  assert (Hpow : py_pow 0 (gamma_neg cfg) = Some 0).
  { rewrite py_pow_unit by lra. rewrite rpow_zero by assumption. reflexivity. }
  repeat split; try assumption.
  - rewrite Heff. apply Rltb_false. lra.
  - unfold map_thr_rev. fold a_eff.
    rewrite Rltb_false by lra.
    rewrite (Rltb_false 0 a_eff) by lra.
    rewrite Hdiv. simpl. rewrite Hcl, Hpow. reflexivity.
Qed.

Lemma map_thr_rev_deadzone_edge_witness :
  map_thr_rev (-2) main_cfg = Some (0, 0).
Proof.
  apply (map_thr_rev_deadzone_edge main_cfg (-2)); simpl.
  - rewrite Rabs_left by lra. lra.
  - lra.
  - lra.
Defined.

(** ** Phase sequence *)

Lemma seq_loop_app (cfg : config) (n : nat) (acc : list (phase * R)) :
  seq_loop cfg n acc = acc ++ concat (repeat (block cfg) n).
Proof.
  revert acc. induction n as [| n IH]; intros acc; simpl.
  - rewrite app_nil_r. reflexivity.
  - rewrite IH, <- app_assoc. reflexivity.
Qed.

Lemma build_seq_blocks (cfg : config) :
  build_seq cfg = concat (repeat (block cfg) (Z.to_nat (reps_each cfg))).
Proof. unfold build_seq. rewrite seq_loop_app. reflexivity. Qed.

Lemma blocks_length (cfg : config) (n : nat) :
  length (concat (repeat (block cfg) n)) = (4 * n)%nat.
Proof.
  induction n as [| n IH]; simpl; [reflexivity |].
  rewrite IH. lia.
Qed.

Lemma blocks_names (cfg : config) (n : nat) :
  map fst (concat (repeat (block cfg) n)) =
  concat (repeat [TRAS; TRANSICAO; FRENTE; TRANSICAO] n).
Proof.
  induction n as [| n IH]; simpl; [reflexivity |].
  rewrite IH. reflexivity.
Qed.

Lemma blocks_no_rest (n : nat) (ph : phase) :
  In ph (concat (repeat [TRAS; TRANSICAO; FRENTE; TRANSICAO] n)) ->
  ph <> DESCANSO.
Proof.
  induction n as [| n IH]; simpl; [tauto |].
  intros [<- | [<- | [<- | [<- | Hin]]]]; try discriminate.
  apply IH. exact Hin.
Qed.

(** C9. For a count [N >= 0] of repetitions per direction the protocol is the
    block [TRÁS, TRANSIÇÃO, FRENTE, TRANSIÇÃO] (with the repetition time and
    the settle timeout as durations) repeated [N] times: [4 * N] phases, none
    of them a rest phase; for [N = 5] these are the twenty phases written
    out below.  The sequence is a function of the configuration alone. *)
Theorem build_seq_shape (cfg : config) :
  (0 <= reps_each cfg)%Z ->
  build_seq cfg = concat (repeat (block cfg) (Z.to_nat (reps_each cfg))) /\
  map fst (build_seq cfg) =
    concat (repeat [TRAS; TRANSICAO; FRENTE; TRANSICAO]
                   (Z.to_nat (reps_each cfg))) /\
  Z.of_nat (length (build_seq cfg)) = (4 * reps_each cfg)%Z /\
  (forall ph, In ph (map fst (build_seq cfg)) -> ph <> DESCANSO) /\
  (reps_each cfg = 5%Z ->
   length (build_seq cfg) = 20%nat /\
   map fst (build_seq cfg) =
     [TRAS; TRANSICAO; FRENTE; TRANSICAO;
      TRAS; TRANSICAO; FRENTE; TRANSICAO;
      TRAS; TRANSICAO; FRENTE; TRANSICAO;
      TRAS; TRANSICAO; FRENTE; TRANSICAO;
      TRAS; TRANSICAO; FRENTE; TRANSICAO]).
Proof.
  intros Hn. rewrite build_seq_blocks, blocks_names, blocks_length.
  split; [reflexivity |]. split; [reflexivity |]. split; [lia |]. split.
  - intros ph. apply blocks_no_rest.
  - intros ->. split; reflexivity.
Qed.

Lemma build_seq_shape_witness :
  (0 <= reps_each main_cfg)%Z /\ length (build_seq main_cfg) = 20%nat.
Proof.
  split.
  - simpl. lia.
  - destruct (build_seq_shape main_cfg) as (_ & _ & _ & _ & H).
    + simpl. lia.
    + apply H. reflexivity.
Defined.

(** ** The frame, piece by piece *)

Lemma bind_some {A B : Type} (m : option A) (k : A -> option B) (b : B) :
  bind m k = Some b -> exists a, m = Some a /\ k a = Some b.
Proof.
  destruct m as [a |]; simpl; [| discriminate].
  intros H. exists a. split; [reflexivity | exact H].
Qed.

(** What a frame that returns has computed, in terms of the state [s1]
    left by the events. *)
Lemma tick_some (cfg : config) (seq : list (phase * R)) (s s' : state)
    (f : frame) :
  tick cfg seq s f = Some s' ->
  exists s1 k,
    handle_events cfg seq (now f) s (events f) = Some s1 /\
    let c := read_calibration f (cal s1) in
    let a := angle_used (last_angle f) c (proto s1) in
    let bp := banner_phases cfg seq f a c (proto s1) (rep s1) (report_rows s1) in
    let p := fst (fst (snd bp)) in
    physics cfg (dt f) a c p (kin s1) = Some k /\
    running s' = running s1 /\
    cal s' = c /\
    proto s' = p /\
    rep s' = rep_metrics cfg (dt f) a c p (snd (fst (snd bp))) /\
    report_rows s' = snd (snd bp) /\
    kin s' = k /\
    angle s' = a /\
    angle_state s' = classify cfg c (proto s1) a (angle_state s1) /\
    banner s' = Some (fst bp).
Proof.
  unfold tick. intros H.
  apply bind_some in H. destruct H as (s1 & Hev & H).
  exists s1.
  destruct (banner_phases cfg seq f
              (angle_used (last_angle f) (read_calibration f (cal s1)) (proto s1))
              (read_calibration f (cal s1)) (proto s1) (rep s1)
              (report_rows s1)) as [b [[p m] rows]] eqn:Hbp.
  apply bind_some in H. destruct H as (k & Hk & H).
  exists k. split; [exact Hev |].
  injection H as <-. cbv zeta.
  cbn [fst snd running cal proto rep report_rows kin angle angle_state banner].
  repeat split; try reflexivity. exact Hk.
Qed.

Lemma physics_total (cfg : config) (d a : R) (c : calibration) (p : protocol)
    (k : kinematics) :
  config_ok cfg -> exists k', physics cfg d a c p k = Some k'.
Proof.
  intros (Hmap & Hv & Hpx). unfold physics.
  rewrite (map_thr_rev_refines cfg a Hmap).
  destruct (actuation_spec a cfg) as [thr rev]. simpl.
  rewrite (fdiv_some _ _ Hv). simpl.
  destruct (moving c p).
  - rewrite (fdiv_some _ _ Hpx). simpl. eexists; reflexivity.
  - eexists; reflexivity.
Qed.

Lemma physics_speed (cfg : config) (d a : R) (c : calibration) (p : protocol)
    (k k' : kinematics) :
  physics cfg d a c p k = Some k' ->
  exists v, speed k' = clamp v (- v_rev_max cfg) (v_max cfg).
Proof.
  unfold physics. intros H.
  apply bind_some in H. destruct H as ([thr rev] & _ & H).
  apply bind_some in H. destruct H as (q & _ & H).
  destruct (moving c p).
  - apply bind_some in H. destruct H as (m & _ & H).
    injection H as <-. simpl. eexists; reflexivity.
  - injection H as <-. simpl. eexists; reflexivity.
Qed.

(** ** Events *)

Lemma reset_session_some (cfg : config) (seq : list (phase * R)) (t : R)
    (s : state) (name : phase) (dur : R) :
  nth_error seq 0 = Some (name, dur) ->
  exists s',
    reset_session cfg seq t s = Some s' /\
    proto s' = {| started := true; start_cd_left := start_countdown cfg;
                  session_done := false; idx := 0;
                  phase_name := name; phase_left := dur; reps_done := 0;
                  settle_ok_time := 0; settle_total_time := 0 |} /\
    rep s' = fresh_metrics /\ report_rows s' = [] /\ kin s' = still /\
    prev_angle_used s' = 0 /\ angle_state s' = neutral /\
    session_t0 s' = Some t /\
    cal s' = cal s /\ running s' = running s /\
    restart_btn_rect s' = restart_btn_rect s.
Proof.
  intros H0. unfold reset_session. rewrite H0. simpl.
  eexists. split; [reflexivity |]. simpl. repeat split.
Qed.

Lemma handle_event_plain (cfg : config) (seq : list (phase * R)) (t : R)
    (s : state) (e : event) :
  started (proto s) = true -> session_done (proto s) = false ->
  plain_event e = true ->
  handle_event cfg seq t s e = Some s.
Proof.
  intros Hst Hdone Hpl.
  destruct e as [| k | pos |]; simpl in *; try discriminate; try reflexivity.
  - destruct k; simpl in *; try discriminate; try reflexivity.
    + rewrite Hst. reflexivity.
    + rewrite Hdone. reflexivity.
  - rewrite Hdone. reflexivity.
Qed.

Lemma handle_events_plain (cfg : config) (seq : list (phase * R)) (t : R)
    (s : state) (es : list event) :
  started (proto s) = true -> session_done (proto s) = false ->
  forallb plain_event es = true ->
  handle_events cfg seq t s es = Some s.
Proof.
  intros Hst Hdone. induction es as [| e es IH]; simpl; [reflexivity |].
  intros Hall. apply andb_true_iff in Hall. destruct Hall as [He Hes].
  rewrite (handle_event_plain cfg seq t s e Hst Hdone He). simpl.
  apply IH. exact Hes.
Qed.

Lemma main_seq_first : nth_error main_seq 0 = Some (TRAS, 10).
Proof. reflexivity. Qed.

Lemma reset_session_state (cfg : config) (seq : list (phase * R)) (t : R)
    (s : state) (name : phase) (dur : R) :
  nth_error seq 0 = Some (name, dur) ->
  exists s',
    reset_session cfg seq t s = Some s' /\ reset_state cfg name dur t s' /\
    cal s' = cal s.
Proof.
  intros H0.
  destruct (reset_session_some cfg seq t s name dur H0)
    as (s' & Hr & Hp & Hm & Hrows & Hk & Hprev & Hst & Ht0 & Hcal & _).
  exists s'. unfold reset_state. intuition.
Qed.

(** C1, as amended.  The restart commands (key R, or a click on the restart
    button) are answered only once the session is complete, and the start
    command (SPACE) only before the session has started.  When answered,
    the command performs the full reset: report cleared, phase index 0 with
    the first phase loaded, settle accumulators, repetition metrics,
    distance and average-speed accumulators at zero, and the countdown
    re-armed with the configured duration; the calibration is kept.  In
    every other state (countdown, running) the same commands leave the
    state as it is. *)
Theorem restart_only_when_complete (cfg : config) (seq : list (phase * R))
    (t : R) (s : state) (name : phase) (dur : R) :
  nth_error seq 0 = Some (name, dur) ->
  (session_done (proto s) = true ->
   (exists s', handle_event cfg seq t s (KEYDOWN K_r) = Some s' /\
               reset_state cfg name dur t s' /\ cal s' = cal s) /\
   (forall pos, collidepoint (restart_btn_rect s) pos = true ->
      exists s', handle_event cfg seq t s (MOUSEBUTTONDOWN pos) = Some s' /\
                 reset_state cfg name dur t s' /\ cal s' = cal s)) /\
  (started (proto s) = false ->
   exists s', handle_event cfg seq t s (KEYDOWN K_SPACE) = Some s' /\
              reset_state cfg name dur t s' /\ cal s' = cal s) /\
  (session_done (proto s) = false ->
   handle_event cfg seq t s (KEYDOWN K_r) = Some s /\
   forall pos, handle_event cfg seq t s (MOUSEBUTTONDOWN pos) = Some s) /\
  (started (proto s) = true ->
   handle_event cfg seq t s (KEYDOWN K_SPACE) = Some s).
Proof.
  intros H0.
  pose proof (reset_session_state cfg seq t s name dur H0) as Hreset.
  repeat split.
  - simpl. rewrite H. exact Hreset.
  - intros pos Hpos. simpl. rewrite H, Hpos. exact Hreset.
  - intros Hns. simpl. rewrite Hns. exact Hreset.
  - simpl. rewrite H. reflexivity.
  - intros pos. simpl. rewrite H. reflexivity.
  - intros Hst. simpl. rewrite Hst. reflexivity.
Qed.

Lemma restart_only_when_complete_witness :
  nth_error main_seq 0 = Some (TRAS, 10) /\
  exists s', handle_event main_cfg main_seq 7 completed (KEYDOWN K_r) = Some s' /\
             reset_state main_cfg TRAS 10 7 s'.
Proof.
  split; [reflexivity |].
  destruct (restart_only_when_complete main_cfg main_seq 7 completed TRAS 10)
    as (Hdone & _); [reflexivity |].
  destruct Hdone as [(s' & He & Hr & _) _]; [reflexivity |].
  exists s'. split; assumption.
Defined.

(** A restart requested in the middle of a running phase is ignored: the
    report keeps its row, the phase index stays 2 and no countdown starts. *)
Lemma restart_ignored_mid_run :
  exists s',
    handle_event main_cfg main_seq 7 mid_run (KEYDOWN K_r) = Some s' /\
    report_rows s' <> [] /\
    idx (proto s') = 2%nat /\
    ~ reset_state main_cfg TRAS 10 7 s'.
Proof.
  exists mid_run. split; [reflexivity |]. split; [discriminate |].
  split; [reflexivity |].
  intros (_ & _ & Hrows & _). discriminate Hrows.
Qed.

(** ** The banner chain *)

(** Evaluation of a frame on given numbers. *)
Create HintDb frame.

#[local] Hint Unfold banner_phases phase_step settle_step timed_step
  rep_metrics rep_row final_extreme active idle phase_running halted moving
  update_metrics target_reached angle_used read_calibration count_down
  advance low_battery classify hysteresis py_max py_min : frame.

Ltac run_frame :=
  repeat (progress (autounfold with frame; simpl; rdecide)).

Lemma main_cfg_ok : config_ok main_cfg.
Proof. unfold config_ok, mapper_ok; simpl; lra. Qed.

Lemma tick_total (cfg : config) (seq : list (phase * R)) (s s1 : state)
    (f : frame) :
  config_ok cfg ->
  handle_events cfg seq (now f) s (events f) = Some s1 ->
  exists s', tick cfg seq s f = Some s'.
Proof.
  intros Hok Hev. unfold tick. rewrite Hev. simpl.
  destruct (banner_phases cfg seq f
              (angle_used (last_angle f) (read_calibration f (cal s1)) (proto s1))
              (read_calibration f (cal s1)) (proto s1) (rep s1)
              (report_rows s1)) as [b [[p m] rows]].
  destruct (physics_total cfg (dt f)
              (angle_used (last_angle f) (read_calibration f (cal s1)) (proto s1))
              (read_calibration f (cal s1)) p (kin s1) Hok) as [k Hk].
  rewrite Hk. simpl. eexists; reflexivity.
Qed.

Lemma phase_running_spec (f : frame) (c : calibration) (p : protocol) :
  phase_running f c p = true <->
  calibrating c = false /\ low_battery (battery_v f) = false /\
  started p = true /\ start_cd_left p <= 0 /\ session_done p = false.
Proof.
  unfold phase_running.
  rewrite !andb_true_iff, !negb_true_iff.
  destruct (Rltb_spec 0 (start_cd_left p)); intuition (try lra; try discriminate).
Qed.

Lemma banner_phases_running (cfg : config) (seq : list (phase * R))
    (f : frame) (a : R) (c : calibration) (p : protocol) (m : metrics)
    (rows : list row) :
  phase_running f c p = true ->
  banner_phases cfg seq f a c p m rows =
  (FASE (phase_name p), phase_step cfg seq (dt f) a p m rows).
Proof.
  intros H. apply phase_running_spec in H.
  destruct H as (Hc & Hb & Hs & Hcd & Hd).
  unfold banner_phases. rewrite Hc, Hb, Hs, Hd. simpl.
  rewrite Rltb_false by exact Hcd. reflexivity.
Qed.

(** Outside the phase logic the chain only counts down, and only in its
    [start_cd_left > 0] branch. *)
Lemma banner_phases_idle (cfg : config) (seq : list (phase * R))
    (f : frame) (a : R) (c : calibration) (p : protocol) (m : metrics)
    (rows : list row) :
  phase_running f c p = false ->
  snd (banner_phases cfg seq f a c p m rows) = (p, m, rows) \/
  snd (banner_phases cfg seq f a c p m rows) = (count_down (dt f) p, m, rows).
Proof.
  unfold phase_running, banner_phases.
  destruct (calibrating c); [left; reflexivity |].
  destruct (low_battery (battery_v f)); [left; reflexivity |].
  destruct (started p); [| left; reflexivity].
  destruct (Rltb_spec 0 (start_cd_left p)); [right; reflexivity |].
  destruct (session_done p); [left; reflexivity |].
  simpl. discriminate.
Qed.

Lemma banner_phases_low_battery (cfg : config) (seq : list (phase * R))
    (f : frame) (a : R) (c : calibration) (p : protocol) (m : metrics)
    (rows : list row) :
  calibrating c = false -> low_battery (battery_v f) = true ->
  banner_phases cfg seq f a c p m rows =
  (BATERIA_BAIXA (or_default (battery_v f) 0), (p, m, rows)).
Proof.
  intros Hc Hb. unfold banner_phases. rewrite Hc, Hb. reflexivity.
Qed.

(** A frame without events, unfolded. *)
Lemma tick_no_events (cfg : config) (seq : list (phase * R)) (s : state)
    (f : frame) :
  config_ok cfg -> events f = [] ->
  exists s',
    tick cfg seq s f = Some s' /\
    let c := read_calibration f (cal s) in
    let a := angle_used (last_angle f) c (proto s) in
    let bp := banner_phases cfg seq f a c (proto s) (rep s) (report_rows s) in
    proto s' = fst (fst (snd bp)) /\
    rep s' = rep_metrics cfg (dt f) a c (fst (fst (snd bp))) (snd (fst (snd bp))) /\
    report_rows s' = snd (snd bp) /\
    banner s' = Some (fst bp) /\
    cal s' = c /\ angle s' = a /\ running s' = running s.
Proof.
  intros Hok Hev.
  assert (Hs : handle_events cfg seq (now f) s (events f) = Some s)
    by (rewrite Hev; reflexivity).
  destruct (tick_total cfg seq s s f Hok Hs) as [s' Ht].
  exists s'. split; [exact Ht |].
  destruct (tick_some cfg seq s s' f Ht) as (s1 & k & Hs1 & H).
  rewrite Hs in Hs1. injection Hs1 as <-.
  cbv zeta in *. intuition.
Qed.

(** Readings that are not low (or missing) are interchangeable: the frame
    looks at the battery only through the test [battery_v < 3.6]. *)
Lemma battery_irrelevant_unless_low (cfg : config) (seq : list (phase * R))
    (s : state) (f : frame) (b : option R) :
  low_battery (battery_v f) = false -> low_battery b = false ->
  tick cfg seq s (with_battery f b) = tick cfg seq s f.
Proof.
  intros Hf Hb. unfold tick, banner_phases, read_calibration. simpl.
  rewrite Hf, Hb. reflexivity.
Qed.

(** C2, the defect.  The low-battery banner is a branch of the same
    [if]/[elif] chain that counts down and advances the phases, placed before
    them: with the same state and the same frame except for the battery
    reading, the countdown loses a second with no reading and stays at 8
    with 3.5 V; in the first phase the remaining time goes to 9 with no
    reading and stays at 10 with 3.5 V, while the repetition clock
    [rep_t_elapsed], which does not look at the battery, advances in both
    runs. *)
Theorem low_battery_freezes_session :
  (exists s0 s1,
      tick main_cfg main_seq in_countdown (sample_frame 1 0 None) = Some s0 /\
      tick main_cfg main_seq in_countdown (sample_frame 1 0 (Some (35 / 10)))
        = Some s1 /\
      start_cd_left (proto s0) = 8 - 1 /\
      start_cd_left (proto s1) = 8 /\
      banner s1 = Some (BATERIA_BAIXA (35 / 10))) /\
  (exists s0 s1,
      tick main_cfg main_seq first_phase (sample_frame 1 0 None) = Some s0 /\
      tick main_cfg main_seq first_phase (sample_frame 1 0 (Some (35 / 10)))
        = Some s1 /\
      phase_left (proto s0) = 10 - 1 /\
      phase_left (proto s1) = 10 /\
      rep_t_elapsed (rep s0) = 0 + 1 /\
      rep_t_elapsed (rep s1) = 0 + 1).
Proof.
  split.
  - destruct (tick_no_events main_cfg main_seq in_countdown
                (sample_frame 1 0 None) main_cfg_ok eq_refl)
      as (s0 & Ht0 & Hp0 & _).
    destruct (tick_no_events main_cfg main_seq in_countdown
                (sample_frame 1 0 (Some (35 / 10))) main_cfg_ok eq_refl)
      as (s1 & Ht1 & Hp1 & _ & _ & Hb1 & _).
    exists s0, s1. split; [exact Ht0 |]. split; [exact Ht1 |].
    rewrite Hp0, Hp1, Hb1.
    run_frame. repeat split.
  - destruct (tick_no_events main_cfg main_seq first_phase
                (sample_frame 1 0 None) main_cfg_ok eq_refl)
      as (s0 & Ht0 & Hp0 & Hm0 & _).
    destruct (tick_no_events main_cfg main_seq first_phase
                (sample_frame 1 0 (Some (35 / 10))) main_cfg_ok eq_refl)
      as (s1 & Ht1 & Hp1 & Hm1 & _).
    exists s0, s1. split; [exact Ht0 |]. split; [exact Ht1 |].
    rewrite Hp0, Hp1, Hm0, Hm1.
    run_frame. repeat split.
Qed.

(** ** Kinematic model *)

Lemma tick_speed (cfg : config) (seq : list (phase * R)) (s s' : state)
    (f : frame) :
  - v_rev_max cfg <= v_max cfg ->
  tick cfg seq s f = Some s' ->
  - v_rev_max cfg <= speed (kin s') <= v_max cfg.
Proof.
  intros Hle Ht.
  destruct (tick_some cfg seq s s' f Ht) as (s1 & k & _ & H).
  cbv zeta in H. destruct H as (Hk & _ & _ & _ & _ & _ & Hkin & _).
  rewrite Hkin.
  destruct (physics_speed _ _ _ _ _ _ _ Hk) as [v ->].
  split; [apply clamp_lower | apply clamp_upper; exact Hle].
Qed.

(** C6. When the limits are ordered, [-v_rev_max <= v_max], the speed left
    by a frame lies in [[-v_rev_max, v_max]], whatever the state before, the
    angle, the events and the frame duration; so does the speed after any
    non-empty sequence of frames. *)
Theorem speed_within_limits (cfg : config) (seq : list (phase * R)) :
  - v_rev_max cfg <= v_max cfg ->
  (forall s f s',
      tick cfg seq s f = Some s' ->
      - v_rev_max cfg <= speed (kin s') <= v_max cfg) /\
  (forall fs s s',
      running s = true -> fs <> [] ->
      run cfg seq s fs = Some s' ->
      - v_rev_max cfg <= speed (kin s') <= v_max cfg).
Proof.
  intros Hle. split.
  - intros s f s'. apply tick_speed. exact Hle.
  - induction fs as [| f fs IH]; intros s s' Hrun Hne H; [congruence |].
    simpl in H. rewrite Hrun in H.
    apply bind_some in H. destruct H as (s2 & Ht & H).
    pose proof (tick_speed cfg seq s s2 f Hle Ht) as Hb.
    destruct fs as [| f' fs'].
    + simpl in H. injection H as <-. exact Hb.
    + destruct (running s2) eqn:Hr2.
      * apply (IH s2 s' Hr2); [discriminate | exact H].
      * simpl in H. rewrite Hr2 in H. injection H as <-. exact Hb.
Qed.

Lemma speed_within_limits_witness :
  - v_rev_max main_cfg <= v_max main_cfg /\
  exists s',
    tick main_cfg main_seq first_phase (sample_frame 1 30 None) = Some s' /\
    - v_rev_max main_cfg <= speed (kin s') <= v_max main_cfg.
Proof.
  assert (Hle : - v_rev_max main_cfg <= v_max main_cfg) by (simpl; lra).
  split; [exact Hle |].
  destruct (tick_total main_cfg main_seq first_phase first_phase
              (sample_frame 1 30 None) main_cfg_ok eq_refl) as [s' Ht].
  exists s'. split; [exact Ht |].
  exact (proj1 (speed_within_limits main_cfg main_seq Hle) _ _ _ Ht).
Defined.

(** ** Direction classifier *)

(** C8. With a positive enter threshold [E] and an exit threshold [X], the
    classifier moves neutral -> forward when [angle >= E], neutral -> reverse
    when [angle <= -E], forward -> neutral when [angle < X], reverse ->
    neutral when [angle > -X], and holds its state otherwise; it never goes
    from forward to reverse or back in one step.  A frame applies this step
    to [raw - zero] while the session is controllable and forces neutral
    otherwise.  For [E = 3], [X = 2] the angles 0, 2.5, 3.5, 2.5, 1.5 give
    neutral, neutral, forward, forward, neutral. *)
Theorem hysteresis_transitions (cfg : config) (a : R) :
  0 < angle_enter_deg cfg ->
  let E := angle_enter_deg cfg in
  let X := angle_exit_deg cfg in
  (E <= a -> hysteresis cfg a neutral = forward) /\
  (a <= - E -> hysteresis cfg a neutral = reverse) /\
  (- E < a < E -> hysteresis cfg a neutral = neutral) /\
  (a < X -> hysteresis cfg a forward = neutral) /\
  (X <= a -> hysteresis cfg a forward = forward) /\
  (- X < a -> hysteresis cfg a reverse = neutral) /\
  (a <= - X -> hysteresis cfg a reverse = reverse) /\
  hysteresis cfg a forward <> reverse /\
  hysteresis cfg a reverse <> forward /\
  (forall seq s f s',
      tick cfg seq s f = Some s' ->
      exists s1,
        handle_events cfg seq (now f) s (events f) = Some s1 /\
        let c := read_calibration f (cal s1) in
        (idle c (proto s1) = false ->
         angle_state s' =
           hysteresis cfg (last_angle f - zero c) (angle_state s1)) /\
        (idle c (proto s1) = true -> angle_state s' = neutral)) /\
  (E = 3 -> X = 2 ->
   hysteresis_trace cfg neutral [0; 5 / 2; 7 / 2; 5 / 2; 3 / 2] =
   [neutral; neutral; forward; forward; neutral]).
Proof.
  intros HE E X. subst E X.
  repeat split;
    try (unfold hysteresis; intros; rcases;
         first [reflexivity | discriminate | lra]).
  - intros seq s f s' Ht.
    destruct (tick_some cfg seq s s' f Ht) as (s1 & k & Hev & H).
    cbv zeta in H.
    destruct H as (_ & _ & _ & _ & _ & _ & _ & _ & Hst & _).
    exists s1. split; [exact Hev |]. cbv zeta. rewrite Hst.
    unfold classify, angle_used.
    split; intros Hidle; rewrite Hidle; reflexivity.
  - intros HE3 HX2. unfold hysteresis_trace, hysteresis.
    rewrite HE3, HX2. rdecide. reflexivity.
Qed.

Lemma hysteresis_transitions_witness :
  0 < angle_enter_deg main_cfg /\
  hysteresis_trace main_cfg neutral [0; 5 / 2; 7 / 2; 5 / 2; 3 / 2] =
  [neutral; neutral; forward; forward; neutral].
Proof.
  assert (HE : 0 < angle_enter_deg main_cfg) by (simpl; lra).
  split; [exact HE |].
  apply (hysteresis_transitions main_cfg 0 HE); reflexivity.
Defined.

(** ** Phases and the report *)

Lemma advance_fields (seq : list (phase * R)) (p : protocol) :
  idx (advance seq p) = S (idx p) /\
  reps_done (advance seq p) = reps_done p /\
  settle_ok_time (advance seq p) = settle_ok_time p /\
  settle_total_time (advance seq p) = settle_total_time p /\
  started (advance seq p) = started p /\
  start_cd_left (advance seq p) = start_cd_left p.
Proof.
  unfold advance. destruct (nth_error seq (S (idx p))) as [[name dur] |];
    simpl; repeat split.
Qed.

Lemma advance_last (seq : list (phase * R)) (p : protocol) :
  (length seq <= S (idx p))%nat ->
  session_done (advance seq p) = true /\
  phase_name (advance seq p) = phase_name p /\
  phase_left (advance seq p) = phase_left p.
Proof.
  intros Hlen. apply nth_error_None in Hlen.
  unfold advance. rewrite Hlen. simpl. repeat split.
Qed.

Lemma advance_next (seq : list (phase * R)) (p : protocol) (name : phase)
    (dur : R) :
  nth_error seq (S (idx p)) = Some (name, dur) ->
  session_done (advance seq p) = session_done p /\
  phase_name (advance seq p) = name /\
  phase_left (advance seq p) = dur.
Proof.
  intros Hnth. unfold advance. rewrite Hnth. simpl. repeat split.
Qed.

Lemma handle_event_rows (cfg : config) (seq : list (phase * R)) (t : R)
    (s s1 : state) (e : event) :
  handle_event cfg seq t s e = Some s1 ->
  report_rows s1 = report_rows s \/ report_rows s1 = [].
Proof.
  assert (Hreset : forall s2, reset_session cfg seq t s = Some s2 ->
                              report_rows s2 = []).
  { unfold reset_session. intros s2 H.
    apply bind_some in H. destruct H as ([name dur] & _ & H).
    injection H as <-. reflexivity. }
  destruct e as [| k | pos |]; simpl.
  - intros H; injection H as <-. left; reflexivity.
  - destruct k; try (intros H; injection H as <-; left; reflexivity).
    + destruct (negb (started (proto s))).
      * intros H. right. apply Hreset. exact H.
      * intros H; injection H as <-. left; reflexivity.
    + destruct (session_done (proto s)).
      * intros H. right. apply Hreset. exact H.
      * intros H; injection H as <-. left; reflexivity.
  - destruct (session_done (proto s));
      [destruct (collidepoint (restart_btn_rect s) pos) |].
    + intros H. right. apply Hreset. exact H.
    + intros H; injection H as <-. left; reflexivity.
    + intros H; injection H as <-. left; reflexivity.
  - intros H; injection H as <-. left; reflexivity.
Qed.

Lemma handle_events_rows (cfg : config) (seq : list (phase * R)) (t : R)
    (es : list event) (s s1 : state) :
  handle_events cfg seq t s es = Some s1 ->
  report_rows s1 = report_rows s \/ report_rows s1 = [].
Proof.
  revert s. induction es as [| e es IH]; intros s; simpl.
  - intros H; injection H as <-. left; reflexivity.
  - intros H. apply bind_some in H. destruct H as (s2 & He & H).
    destruct (handle_event_rows cfg seq t s s2 e He) as [Hsame | Hnil];
      destruct (IH s2 H) as [Hsame' | Hnil']; try (right; congruence).
    left; congruence.
Qed.

(** The timed branch appends exactly when a repetition phase runs out. *)
Lemma timed_step_rows (seq : list (phase * R)) (d : R) (p : protocol)
    (m : metrics) (rows : list row) :
  let r := timed_step seq d p m rows in
  (is_rep (phase_name p) && (phase_left p - d <=? 0) = true ->
   snd r = rows ++ [rep_row (phase_name p) m] /\
   snd (fst r) = fresh_metrics /\
   reps_done (fst (fst r)) = S (reps_done p) /\
   idx (fst (fst r)) = S (idx p)) /\
  (is_rep (phase_name p) && (phase_left p - d <=? 0) = false ->
   snd r = rows /\ snd (fst r) = m /\
   reps_done (fst (fst r)) = reps_done p).
Proof.
  unfold timed_step.
  destruct (Rleb_spec (phase_left p - d) 0), (is_rep (phase_name p));
    simpl; split; intros H; try discriminate;
    repeat split;
    try (rewrite (proj1 (advance_fields _ _)); reflexivity);
    try (rewrite (proj1 (proj2 (advance_fields _ _))); reflexivity).
Qed.

Lemma final_extreme_clamped (ph : phase) (ext : option R) :
  final_extreme ph ext =
  if phase_eqb ph FRENTE then Rmax 0 (or_default ext 0)
  else Rmin 0 (or_default ext 0).
Proof.
  unfold final_extreme. rewrite py_max_Rmax, py_min_Rmin. reflexivity.
Qed.

Lemma timed_step_rep_end (seq : list (phase * R)) (d : R) (p : protocol)
    (m : metrics) (rows : list row) :
  is_rep (phase_name p) = true -> phase_left p - d <= 0 ->
  timed_step seq d p m rows =
  (advance seq
     {| started := started p; start_cd_left := start_cd_left p;
        session_done := session_done p;
        idx := idx p; phase_name := phase_name p;
        phase_left := phase_left p - d;
        reps_done := S (reps_done p);
        settle_ok_time := settle_ok_time p;
        settle_total_time := settle_total_time p |},
   fresh_metrics, rows ++ [rep_row (phase_name p) m]).
Proof.
  intros Hrep Hleft. unfold timed_step.
  rewrite (Rleb_true _ _ Hleft), Hrep. reflexivity.
Qed.

Lemma is_rep_not_transition (ph : phase) :
  is_rep ph = true -> phase_eqb ph TRANSICAO = false.
Proof. destruct ph; simpl; congruence. Qed.

Lemma rows_not_extended (rows : list row) (r : row) : rows <> rows ++ [r].
Proof.
  intros H. apply (f_equal (@length row)) in H.
  rewrite length_app in H. simpl in H. lia.
Qed.

(** What a frame does to the report and the repetition counter. *)
Lemma phases_report (cfg : config) (seq : list (phase * R)) (f : frame)
    (a : R) (c : calibration) (p : protocol) (m : metrics) (rows : list row) :
  let bp := banner_phases cfg seq f a c p m rows in
  (rep_ends f c p = true ->
   snd bp =
   (advance seq
      {| started := started p; start_cd_left := start_cd_left p;
         session_done := session_done p;
         idx := idx p; phase_name := phase_name p;
         phase_left := phase_left p - dt f;
         reps_done := S (reps_done p);
         settle_ok_time := settle_ok_time p;
         settle_total_time := settle_total_time p |},
    fresh_metrics, rows ++ [rep_row (phase_name p) m])) /\
  (rep_ends f c p = false ->
   snd (snd bp) = rows /\ snd (fst (snd bp)) = m /\
   reps_done (fst (fst (snd bp))) = reps_done p).
Proof.
  cbv zeta. unfold rep_ends.
  destruct (phase_running f c p) eqn:Hrun.
  - rewrite (banner_phases_running cfg seq f a c p m rows Hrun).
    unfold phase_step. simpl.
    destruct (is_rep (phase_name p)) eqn:Hrep; simpl.
    + rewrite (is_rep_not_transition _ Hrep).
      destruct (Rleb_spec (phase_left p - dt f) 0) as [Hle | Hgt];
        split; intros H; try discriminate.
      * apply timed_step_rep_end; assumption.
      * apply (timed_step_rows seq (dt f) p m rows).
        rewrite Hrep. simpl. apply Rleb_false. lra.
    + split; intros H; [discriminate |].
      destruct (phase_eqb (phase_name p) TRANSICAO); simpl.
      * repeat split. unfold settle_step.
        match goal with |- context [if ?b then _ else _] => destruct b end;
          [rewrite (proj1 (proj2 (advance_fields _ _))) |]; reflexivity.
      * apply (timed_step_rows seq (dt f) p m rows). rewrite Hrep. reflexivity.
  - simpl. split; intros H; [discriminate |].
    destruct (banner_phases_idle cfg seq f a c p m rows Hrun) as [-> | ->];
      simpl; repeat split.
Qed.

(** C4. In a frame, a row is appended to the report exactly when a TRÁS or
    FRENTE phase ends (the phase logic runs and the remaining time reaches
    0).  Then exactly one row is appended, with the phase as direction, the
    extreme clamped to the phase's side ([max(0, ext)] for FRENTE,
    [min(0, ext)] for TRÁS, 0 without extreme) and the time to target;
    the repetition counter and the phase index go up by one, and the session
    is complete if no phase remains, else the next phase is loaded.  In any
    other frame (transition exit, rest end, countdown, calibration) the
    report is the one left by the events, and the events themselves (restart
    included) never append: they leave the report alone or clear it. *)
Theorem row_appended_iff_rep_ends (cfg : config) (seq : list (phase * R))
    (s s' : state) (f : frame) :
  tick cfg seq s f = Some s' ->
  exists s1,
    handle_events cfg seq (now f) s (events f) = Some s1 /\
    (report_rows s1 = report_rows s \/ report_rows s1 = []) /\
    let c := read_calibration f (cal s1) in
    let p := proto s1 in
    ((exists r, report_rows s' = report_rows s1 ++ [r]) <->
     rep_ends f c p = true) /\
    (rep_ends f c p = true ->
     report_rows s' =
       report_rows s1 ++
       [ {| dir := phase_name p;
            ang_ext :=
              Fin (if phase_eqb (phase_name p) FRENTE
                   then Rmax 0 (or_default (rep_ang_ext (rep s1)) 0)
                   else Rmin 0 (or_default (rep_ang_ext (rep s1)) 0));
            t_target := or_nan (rep_t_to_target (rep s1)) |} ] /\
     reps_done (proto s') = S (reps_done p) /\
     idx (proto s') = S (idx p) /\
     ((length seq <= S (idx p))%nat -> session_done (proto s') = true) /\
     (forall name dur,
         nth_error seq (S (idx p)) = Some (name, dur) ->
         session_done (proto s') = false /\
         phase_name (proto s') = name /\ phase_left (proto s') = dur)) /\
    (rep_ends f c p = false ->
     report_rows s' = report_rows s1 /\
     reps_done (proto s') = reps_done p).
Proof.
  intros Ht.
  destruct (tick_some cfg seq s s' f Ht) as (s1 & k & Hev & H).
  cbv zeta in H. destruct H as (_ & _ & _ & Hp & _ & Hrows & _).
  exists s1. split; [exact Hev |].
  split; [exact (handle_events_rows cfg seq (now f) (events f) s s1 Hev) |].
  cbv zeta.
  set (c := read_calibration f (cal s1)) in *.
  set (a := angle_used (last_angle f) c (proto s1)) in *.
  destruct (phases_report cfg seq f a c (proto s1) (rep s1) (report_rows s1))
    as [Hend Hnot].
  cbv zeta in Hend, Hnot.
  assert (Htrue : rep_ends f c (proto s1) = true ->
    report_rows s' =
      report_rows s1 ++
      [ {| dir := phase_name (proto s1);
           ang_ext :=
             Fin (if phase_eqb (phase_name (proto s1)) FRENTE
                  then Rmax 0 (or_default (rep_ang_ext (rep s1)) 0)
                  else Rmin 0 (or_default (rep_ang_ext (rep s1)) 0));
           t_target := or_nan (rep_t_to_target (rep s1)) |} ] /\
    reps_done (proto s') = S (reps_done (proto s1)) /\
    idx (proto s') = S (idx (proto s1)) /\
    ((length seq <= S (idx (proto s1)))%nat ->
     session_done (proto s') = true) /\
    (forall name dur,
        nth_error seq (S (idx (proto s1))) = Some (name, dur) ->
        session_done (proto s') = false /\
        phase_name (proto s') = name /\ phase_left (proto s') = dur)).
  { intros He. specialize (Hend He).
    assert (Hdone : session_done (proto s1) = false).
    { unfold rep_ends in He. apply andb_true_iff in He. destruct He as [He _].
      apply andb_true_iff in He. destruct He as [He _].
      apply phase_running_spec in He. tauto. }
    rewrite Hrows, Hp, Hend. simpl.
    unfold rep_row. rewrite final_extreme_clamped.
    split; [reflexivity |].
    split; [rewrite (proj1 (proj2 (advance_fields _ _))); reflexivity |].
    split; [rewrite (proj1 (advance_fields _ _)); reflexivity |].
    split.
    - intros Hlen. apply advance_last. exact Hlen.
    - intros name dur Hnth.
      match goal with
      | |- context [advance seq ?q] =>
          destruct (advance_next seq q name dur Hnth) as (Hd & Hn & Hl)
      end.
      rewrite Hd, Hn, Hl. simpl. auto. }
  assert (Hfalse : rep_ends f c (proto s1) = false ->
    report_rows s' = report_rows s1 /\
    reps_done (proto s') = reps_done (proto s1)).
  { intros He. destruct (Hnot He) as (Hr & _ & Hd).
    rewrite Hrows, Hp. split; assumption. }
  split; [| split; assumption].
  split.
  - intros [r Hr]. destruct (rep_ends f c (proto s1)); [reflexivity |].
    destruct (Hfalse eq_refl) as [Hsame _]. rewrite Hsame in Hr.
    destruct (rows_not_extended _ _ Hr).
  - intros He. destruct (Htrue He) as [Hr _]. eexists. exact Hr.
Qed.

Lemma row_appended_iff_rep_ends_witness :
  exists s',
    tick main_cfg main_seq mid_run (sample_frame 5 15 None) = Some s' /\
    length (report_rows s') = 2%nat /\ reps_done (proto s') = 2%nat.
Proof.
  destruct (tick_total main_cfg main_seq mid_run mid_run
              (sample_frame 5 15 None) main_cfg_ok eq_refl) as [s' Ht].
  exists s'. split; [exact Ht |].
  destruct (row_appended_iff_rep_ends main_cfg main_seq mid_run s'
              (sample_frame 5 15 None) Ht) as (s1 & Hev & _ & H).
  injection Hev as <-. cbv zeta in H. destruct H as (_ & Hends & _).
  destruct Hends as (Hrows & Hreps & _).
  - unfold rep_ends. run_frame. reflexivity.
  - rewrite Hrows, Hreps. split; reflexivity.
Defined.

(** ** Frames of a session under way *)

Lemma phase_running_not_idle (f : frame) (c : calibration) (p : protocol) :
  phase_running f c p = true -> idle c p = false /\ active c p = true.
Proof.
  intros H. apply phase_running_spec in H.
  destruct H as (Hc & _ & Hs & Hcd & Hd).
  unfold idle, active. rewrite Hc, Hs, Hd.
  rewrite Rltb_false by exact Hcd. rewrite Rleb_true by exact Hcd.
  split; reflexivity.
Qed.

Lemma read_calibration_off (f : frame) (c : calibration) :
  calibrating c = false -> read_calibration f c = c.
Proof. intros H. unfold read_calibration. rewrite H. reflexivity. Qed.

(** A plain frame of a session under way: the events change nothing, the
    calibration stays, and the phase logic runs on [raw - zero]. *)
Lemma tick_plain (cfg : config) (seq : list (phase * R)) (s : state)
    (f : frame) :
  config_ok cfg -> in_session s -> plain f = true ->
  exists s',
    tick cfg seq s f = Some s' /\
    running s' = true /\ cal s' = cal s /\
    let a := last_angle f - zero (cal s) in
    let r := phase_step cfg seq (dt f) a (proto s) (rep s) (report_rows s) in
    proto s' = fst (fst r) /\
    rep s' = rep_metrics cfg (dt f) a (cal s) (fst (fst r)) (snd (fst r)) /\
    report_rows s' = snd r /\
    angle s' = a.
Proof.
  intros Hok (Hrun & Hcal & Hst & Hcd & Hdone) Hpl.
  unfold plain in Hpl. apply andb_true_iff in Hpl.
  destruct Hpl as [Hev Hbat]. apply negb_true_iff in Hbat.
  pose proof (handle_events_plain cfg seq (now f) s (events f) Hst Hdone Hev)
    as Hs1.
  destruct (tick_total cfg seq s s f Hok Hs1) as [s' Ht].
  exists s'. split; [exact Ht |].
  destruct (tick_some cfg seq s s' f Ht) as (s1 & k & Hs1' & H).
  rewrite Hs1 in Hs1'. injection Hs1' as <-.
  cbv zeta in H. rewrite (read_calibration_off f (cal s) Hcal) in H.
  assert (Hpr : phase_running f (cal s) (proto s) = true).
  { apply phase_running_spec. tauto. }
  destruct (phase_running_not_idle f (cal s) (proto s) Hpr) as [Hidle _].
  unfold angle_used in H. rewrite Hidle in H.
  rewrite (banner_phases_running cfg seq f _ (cal s) (proto s) (rep s)
             (report_rows s) Hpr) in H.
  simpl in H.
  destruct H as (_ & Hr & Hc & Hp & Hm & Hrows & _ & Ha & _).
  cbv zeta. rewrite Hr, Hc, Hp, Hm, Hrows, Ha. repeat split. exact Hrun.
Qed.

(** ** Transition phases *)


Lemma total_dt_nonneg (fs : list frame) :
  Forall (fun f => 0 <= dt f) fs -> 0 <= total_dt fs.
Proof.
  induction 1 as [| f fs Hf _ IH]; simpl; lra.
Qed.










(** ** Repetition metrics *)


Lemma collect_app (cfg : config) (ph : phase) (m : metrics)
    (xs ys : list (R * R)) :
  collect cfg ph m (xs ++ ys) = collect cfg ph (collect cfg ph m xs) ys.
Proof. unfold collect. apply fold_left_app. Qed.






(** ** Repetition phases *)

Lemma timed_step_continue (seq : list (phase * R)) (d : R) (p : protocol)
    (m : metrics) (rows : list row) :
  0 < phase_left p - d ->
  timed_step seq d p m rows =
  ({| started := started p; start_cd_left := start_cd_left p;
      session_done := session_done p;
      idx := idx p; phase_name := phase_name p;
      phase_left := phase_left p - d;
      reps_done := reps_done p;
      settle_ok_time := settle_ok_time p;
      settle_total_time := settle_total_time p |}, m, rows).
Proof.
  intros H. unfold timed_step. rewrite Rleb_false by exact H. reflexivity.
Qed.

(** A plain frame of a repetition that does not end it: the timer loses
    [dt] and the metrics take the sample. *)
Lemma rep_frame_holds (cfg : config) (seq : list (phase * R)) (s : state)
    (f : frame) :
  config_ok cfg -> in_session s -> plain f = true ->
  is_rep (phase_name (proto s)) = true ->
  0 < phase_left (proto s) - dt f ->
  exists s',
    tick cfg seq s f = Some s' /\ in_session s' /\ cal s' = cal s /\
    phase_name (proto s') = phase_name (proto s) /\
    idx (proto s') = idx (proto s) /\
    phase_left (proto s') = phase_left (proto s) - dt f /\
    report_rows s' = report_rows s /\
    rep s' = update_metrics cfg (phase_name (proto s)) (dt f)
               (last_angle f - zero (cal s)) (rep s).
Proof.
  intros Hok Hin Hpl Hrep Hleft.
  destruct (tick_plain cfg seq s f Hok Hin Hpl)
    as (s' & Ht & Hrun & Hcal & Hp & Hm & Hrows & _).
  cbv zeta in Hp, Hm, Hrows.
  unfold phase_step in Hp, Hm, Hrows.
  rewrite (is_rep_not_transition _ Hrep) in Hp, Hm, Hrows.
  rewrite (timed_step_continue seq (dt f) (proto s) (rep s) (report_rows s)
             Hleft) in Hp, Hm, Hrows.
  simpl in Hp, Hm, Hrows.
  destruct Hin as (_ & Hc & Hst & Hcd & Hd).
  unfold rep_metrics, active in Hm. simpl in Hm.
  rewrite Hst, Hc, Hd, Hrep, (Rleb_true _ _ Hcd) in Hm. simpl in Hm.
  exists s'. split; [exact Ht |].
  unfold in_session. rewrite Hp, Hcal, Hrows, Hm. simpl.
  repeat split; assumption.
Qed.

(** The plain frame that ends a repetition appends its row, built from the
    metrics collected before this frame. *)
Lemma rep_frame_ends (cfg : config) (seq : list (phase * R)) (s : state)
    (f : frame) :
  config_ok cfg -> in_session s -> plain f = true ->
  is_rep (phase_name (proto s)) = true ->
  phase_left (proto s) - dt f <= 0 ->
  exists s',
    tick cfg seq s f = Some s' /\
    report_rows s' =
      report_rows s ++ [rep_row (phase_name (proto s)) (rep s)].
Proof.
  intros Hok Hin Hpl Hrep Hleft.
  destruct (tick_plain cfg seq s f Hok Hin Hpl)
    as (s' & Ht & _ & _ & _ & _ & Hrows & _).
  cbv zeta in Hrows. unfold phase_step in Hrows.
  rewrite (is_rep_not_transition _ Hrep) in Hrows.
  rewrite (timed_step_rep_end seq (dt f) (proto s) (rep s) (report_rows s)
             Hrep Hleft) in Hrows.
  exists s'. split; [exact Ht | exact Hrows].
Qed.

(** Plain frames inside a repetition: the row is still to come and the
    metrics are those of the samples seen so far. *)
Lemma rep_run (cfg : config) (seq : list (phase * R)) (ph : phase)
    (fs : list frame) (s : state) (h : list (R * R)) :
  config_ok cfg -> in_session s ->
  phase_name (proto s) = ph -> is_rep ph = true ->
  rep s = collect cfg ph fresh_metrics h ->
  Forall (fun f => plain f = true /\ 0 <= dt f) fs ->
  total_dt fs < phase_left (proto s) ->
  exists s',
    run cfg seq s fs = Some s' /\ in_session s' /\ cal s' = cal s /\
    phase_name (proto s') = ph /\
    phase_left (proto s') = phase_left (proto s) - total_dt fs /\
    report_rows s' = report_rows s /\
    rep s' = collect cfg ph fresh_metrics (h ++ samples (zero (cal s)) fs).
Proof.
  intros Hok. revert s h.
  induction fs as [| f fs IH]; intros s h Hin Hph Hrep Hm Hall Hlt.
  - exists s. simpl. rewrite app_nil_r.
    repeat split; try assumption; try lra; apply Hin.
  - inversion Hall as [| f' fs' (Hpl & Hd) Hrest]; subst f' fs'.
    assert (Hnn : 0 <= total_dt fs).
    { apply total_dt_nonneg. eapply Forall_impl; [| exact Hrest].
      simpl. tauto. }
    simpl in Hlt.
    destruct (rep_frame_holds cfg seq s f Hok Hin Hpl)
      as (s1 & Ht & Hin1 & Hcal1 & Hph1 & _ & Hleft1 & Hrows1 & Hm1).
    + rewrite Hph. exact Hrep.
    + lra.
    + rewrite Hph in Hph1, Hm1.
      destruct (IH s1 (h ++ [(dt f, last_angle f - zero (cal s))])
                  Hin1 Hph1 Hrep) as (s' & Hr & H).
      * rewrite Hm1, Hm, collect_app. reflexivity.
      * exact Hrest.
      * rewrite Hleft1. lra.
      * exists s'. simpl.
        destruct Hin as (Hrun & _). rewrite Hrun, Ht. simpl.
        split; [exact Hr |].
        destruct H as (Hin' & Hcal' & Hph' & Hleft' & Hrows' & Hm').
        split; [exact Hin' |].
        rewrite Hcal', Hcal1, Hleft', Hleft1, Hrows', Hrows1, Hm', Hcal1.
        rewrite <- app_assoc. simpl.
        repeat split; try assumption. lra.
Qed.



(** * Further properties of the program *)

(** ** [clamp] *)

(** X1.  [clamp(x, a, b)] is [x] inside ordered limits and the nearer limit
    outside them; it is idempotent; with crossed limits ([b < a]) it is the
    first limit [a], whatever [x]. *)
Theorem clamp_cases (x a b : R) :
  (a <= x <= b -> clamp x a b = x) /\
  (a <= b -> x <= a -> clamp x a b = a) /\
  (a <= b -> b <= x -> clamp x a b = b) /\
  (b < a -> clamp x a b = a) /\
  clamp (clamp x a b) a b = clamp x a b.
Proof.
  unfold clamp, py_max, py_min.
  repeat split; intros; rcases; lra.
Qed.

Lemma clamp_cases_witness :
  clamp 5 0 1 = 1 /\ clamp 5 1 0 = 1 /\ clamp (1 / 2) 0 1 = 1 / 2.
Proof.
  destruct (clamp_cases 5 0 1) as (_ & _ & Hhi & _).
  destruct (clamp_cases 5 1 0) as (_ & _ & _ & Hx & _).
  destruct (clamp_cases (1 / 2) 0 1) as (Hin & _).
  repeat split; [apply Hhi | apply Hx | apply Hin]; lra.
Defined.

Lemma clamp_mono (x1 x2 a b : R) :
  x1 <= x2 -> clamp x1 a b <= clamp x2 a b.
Proof. intros H. unfold clamp, py_max, py_min. rcases; lra. Qed.

(** ** The low-pass filter *)











(** ** Shape of the actuation curves *)

Lemma rpow_nonneg (t g : R) : 0 <= t -> 0 <= rpow t g.
Proof.
  intros Ht. unfold rpow.
  destruct (Reqb_spec t 0); [destruct (Reqb_spec g 0); lra |].
  left. apply exp_pos.
Qed.

Lemma rpow_exp_zero (t : R) : 0 <= t -> rpow t 0 = 1.
Proof.
  intros Ht. unfold rpow. rewrite (Reqb_true 0 0) by reflexivity.
  destruct (Reqb_spec t 0); [reflexivity |].
  apply Rpower_O. lra.
Qed.

Lemma rpow_mono (t1 t2 g : R) :
  0 <= t1 <= t2 -> 0 <= g -> rpow t1 g <= rpow t2 g.
Proof.
  intros [H1 H12] [Hg | <-].
  - unfold rpow at 1. destruct (Reqb_spec t1 0) as [-> | Hne].
    + rewrite Reqb_false by lra. apply rpow_nonneg. lra.
    + rewrite rpow_pos by lra. apply Rle_Rpower_l; lra.
  - rewrite !rpow_exp_zero by lra. lra.
Qed.

Lemma rpow_one (g : R) : rpow 1 g = 1.
Proof.
  rewrite rpow_pos by lra. unfold Rpower. rewrite ln_1, Rmult_0_r.
  apply exp_0.
Qed.

(** The throttle as a function of the angle. *)
Lemma actuation_thr (cfg : config) (a : R) :
  0 <= deadzone_deg cfg ->
  fst (actuation_spec a cfg) =
  if a >? deadzone_deg cfg
  then rpow (clamp ((a - deadzone_deg cfg) / angle_max_pl_deg cfg) 0 1)
            (gamma_pos cfg)
  else 0.
Proof.
  intros Hdz. unfold actuation_spec, sign, Rabs.
  destruct (Rcase_abs a) as [Hneg | Hpos].
  - rewrite (Rltb_true a 0) by lra.
    rewrite (Rltb_false (deadzone_deg cfg) a) by lra.
    destruct (Rltb_spec (- a) (deadzone_deg cfg)); [reflexivity |].
    rewrite Rltb_false by lra. reflexivity.
  - rewrite (Rltb_false a 0) by lra.
    destruct (Rltb_spec a (deadzone_deg cfg)) as [Hin | Hout].
    + rewrite Rltb_false by lra. reflexivity.
    + destruct (Rltb_spec 0 a) as [Hp | Hz].
      * replace (1 * (a - deadzone_deg cfg)) with (a - deadzone_deg cfg)
          by lra.
        destruct (Rltb_spec (deadzone_deg cfg) a).
        -- rewrite Rltb_true by lra. reflexivity.
        -- rewrite Rltb_false by lra. reflexivity.
      * rewrite (Rltb_false 0 (0 * (a - deadzone_deg cfg))) by lra.
        rewrite Rltb_false by lra. reflexivity.
Qed.

(** The reverse command as a function of the angle. *)
Lemma actuation_rev (cfg : config) (a : R) :
  0 <= deadzone_deg cfg -> 0 < gamma_neg cfg ->
  snd (actuation_spec a cfg) =
  if a <? - deadzone_deg cfg
  then rpow (clamp ((- a - deadzone_deg cfg) / angle_max_df_deg cfg) 0 1)
            (gamma_neg cfg)
  else 0.
Proof.
  intros Hdz Hg.
  assert (Hzero : forall e, e = 0 ->
            rpow (clamp (- e / angle_max_df_deg cfg) 0 1) (gamma_neg cfg) = 0).
  { intros e ->. replace (- 0 / angle_max_df_deg cfg) with 0
      by (unfold Rdiv; ring).
    rewrite clamp_inside by lra. apply rpow_zero. exact Hg. }
  unfold actuation_spec, sign, Rabs.
  destruct (Rcase_abs a) as [Hneg | Hpos].
  - rewrite (Rltb_true a 0) by lra.
    destruct (Rltb_spec (- a) (deadzone_deg cfg)) as [Hin | Hout].
    + rewrite Rltb_false by lra. reflexivity.
    + rewrite (Rltb_false 0 (-1 * (- a - deadzone_deg cfg))) by lra.
      simpl.
      destruct (Rltb_spec a (- deadzone_deg cfg)) as [Hlt | Hge].
      * replace (- (-1 * (- a - deadzone_deg cfg)))
          with (- a - deadzone_deg cfg) by lra.
        reflexivity.
      * apply Hzero. lra.
  - rewrite (Rltb_false a 0) by lra.
    rewrite (Rltb_false a (- deadzone_deg cfg)) by lra.
    destruct (Rltb_spec a (deadzone_deg cfg)) as [Hin | Hout];
      [reflexivity |].
    destruct (Rltb_spec 0 a) as [Hp | Hz].
    + destruct (Rltb_spec 0 (1 * (a - deadzone_deg cfg))); simpl;
        [reflexivity | apply Hzero; lra].
    + rewrite (Rltb_false 0 (0 * (a - deadzone_deg cfg))) by lra. simpl.
      apply Hzero. lra.
Qed.

(** X8.  For positive angle ranges and a positive reverse exponent the mapper is
    monotone: a larger angle never gives less throttle nor more reverse. *)
Theorem mapper_monotone (cfg : config) (a1 a2 : R) :
  mapper_ok cfg ->
  0 < angle_max_pl_deg cfg -> 0 < angle_max_df_deg cfg ->
  0 < gamma_neg cfg ->
  a1 <= a2 ->
  exists t1 r1 t2 r2,
    map_thr_rev a1 cfg = Some (t1, r1) /\
    map_thr_rev a2 cfg = Some (t2, r2) /\
    t1 <= t2 /\ r2 <= r1.
Proof.
  intros Hok Hpl Hdf Hgn Hle.
  pose proof (map_thr_rev_refines cfg a1 Hok) as H1.
  pose proof (map_thr_rev_refines cfg a2 Hok) as H2.
  destruct Hok as (Hdz & _ & _ & Hgp & _).
  pose proof (actuation_thr cfg a1 Hdz) as Ht1.
  pose proof (actuation_thr cfg a2 Hdz) as Ht2.
  pose proof (actuation_rev cfg a1 Hdz Hgn) as Hr1.
  pose proof (actuation_rev cfg a2 Hdz Hgn) as Hr2.
  destruct (actuation_spec a1 cfg) as [t1 r1].
  destruct (actuation_spec a2 cfg) as [t2 r2].
  simpl in *. exists t1, r1, t2, r2.
  split; [exact H1 |]. split; [exact H2 |].
  subst t1 t2 r1 r2. split.
  - destruct (Rltb_spec (deadzone_deg cfg) a1) as [Hin1 | Hout1].
    + rewrite Rltb_true by lra.
      apply rpow_mono; [| exact Hgp].
      split; [apply clamp_lower |].
      apply clamp_mono. apply Rmult_le_compat_r; [| lra].
      left. apply Rinv_0_lt_compat. exact Hpl.
    + destruct (Rltb_spec (deadzone_deg cfg) a2); [| lra].
      apply rpow_nonneg. apply clamp_lower.
  - destruct (Rltb_spec a2 (- deadzone_deg cfg)) as [Hin2 | Hout2].
    + rewrite Rltb_true by lra.
      apply rpow_mono; [| lra].
      split; [apply clamp_lower |].
      apply clamp_mono. apply Rmult_le_compat_r; [| lra].
      left. apply Rinv_0_lt_compat. exact Hdf.
    + destruct (Rltb_spec a1 (- deadzone_deg cfg)); [| lra].
      apply rpow_nonneg. apply clamp_lower.
Qed.

Lemma mapper_monotone_witness :
  exists t1 r1 t2 r2,
    map_thr_rev 10 main_cfg = Some (t1, r1) /\
    map_thr_rev 16 main_cfg = Some (t2, r2) /\
    t1 <= t2 /\ r2 <= r1.
Proof.
  apply (mapper_monotone main_cfg 10 16).
  - exact (proj1 main_cfg_ok).
  - simpl. lra.
  - simpl. lra.
  - simpl. lra.
  - lra.
Defined.

(** X9.  Beyond the deadzone plus the angle range the command is saturated: full
    throttle forwards, full reverse backwards. *)
Theorem mapper_saturates (cfg : config) (a : R) :
  mapper_ok cfg ->
  0 < angle_max_pl_deg cfg -> 0 < angle_max_df_deg cfg ->
  (deadzone_deg cfg + angle_max_pl_deg cfg <= a ->
   map_thr_rev a cfg = Some (1, 0)) /\
  (a <= - (deadzone_deg cfg + angle_max_df_deg cfg) ->
   0 < gamma_neg cfg ->
   map_thr_rev a cfg = Some (0, 1)).
Proof.
  intros Hok Hpl Hdf.
  pose proof (map_thr_rev_refines cfg a Hok) as Href.
  destruct Hok as (Hdz & _ & _ & Hgp & Hgn).
  pose proof (actuation_thr cfg a Hdz) as Ht.
  assert (Hsat : forall q, 1 <= q -> clamp q 0 1 = 1).
  { intros q Hq. unfold clamp, py_max, py_min. rcases; lra. }
  split.
  - intros Ha.
    assert (Hr : snd (actuation_spec a cfg) = 0).
    { unfold actuation_spec, sign.
      rewrite (Rabs_pos_eq a) by lra.
      destruct (Rltb_spec a (deadzone_deg cfg)); [lra |].
      rewrite (Rltb_false a 0) by lra. rewrite (Rltb_true 0 a) by lra.
      rewrite Rltb_true by lra. reflexivity. }
    rewrite Rltb_true in Ht by lra.
    rewrite Hsat, rpow_one in Ht.
    + rewrite Href. destruct (actuation_spec a cfg); simpl in *.
      congruence.
    + apply (Rmult_le_reg_r (angle_max_pl_deg cfg)); [exact Hpl |].
      unfold Rdiv. rewrite Rmult_assoc, Rinv_l by lra. lra.
  - intros Ha Hg.
    pose proof (actuation_rev cfg a Hdz Hg) as Hr.
    rewrite Rltb_false in Ht by lra.
    rewrite Rltb_true in Hr by lra.
    rewrite Hsat, rpow_one in Hr.
    + rewrite Href. destruct (actuation_spec a cfg); simpl in *.
      congruence.
    + apply (Rmult_le_reg_r (angle_max_df_deg cfg)); [exact Hdf |].
      unfold Rdiv. rewrite Rmult_assoc, Rinv_l by lra. lra.
Qed.

Lemma mapper_saturates_witness :
  map_thr_rev 40 main_cfg = Some (1, 0) /\
  map_thr_rev (-32) main_cfg = Some (0, 1).
Proof.
  destruct (mapper_saturates main_cfg 40) as [Hf _];
    [exact (proj1 main_cfg_ok) | simpl; lra | simpl; lra |].
  destruct (mapper_saturates main_cfg (-32)) as [_ Hb];
    [exact (proj1 main_cfg_ok) | simpl; lra | simpl; lra |].
  split; [apply Hf | apply Hb]; simpl; lra.
Defined.

(** X10.  With the same range and the same positive exponent on both sides, as in
    [main], mirroring the angle swaps throttle and reverse. *)
Theorem mapper_symmetric (cfg : config) (a : R) :
  mapper_ok cfg ->
  angle_max_pl_deg cfg = angle_max_df_deg cfg ->
  gamma_pos cfg = gamma_neg cfg -> 0 < gamma_neg cfg ->
  exists t r,
    map_thr_rev a cfg = Some (t, r) /\ map_thr_rev (- a) cfg = Some (r, t).
Proof.
  intros Hok Hmax Hgam Hg.
  pose proof (map_thr_rev_refines cfg a Hok) as H1.
  pose proof (map_thr_rev_refines cfg (- a) Hok) as H2.
  destruct Hok as (Hdz & _ & _ & Hgp & _).
  pose proof (actuation_thr cfg a Hdz) as Ht1.
  pose proof (actuation_thr cfg (- a) Hdz) as Ht2.
  pose proof (actuation_rev cfg a Hdz Hg) as Hr1.
  pose proof (actuation_rev cfg (- a) Hdz Hg) as Hr2.
  destruct (actuation_spec a cfg) as [t1 r1].
  destruct (actuation_spec (- a) cfg) as [t2 r2].
  simpl in *. exists t1, r1. split; [exact H1 |].
  rewrite H2. f_equal. f_equal.
  - subst t2 r1. rewrite Hmax, Hgam.
    destruct (Rltb_spec a (- deadzone_deg cfg)).
    + rewrite Rltb_true by lra. reflexivity.
    + rewrite Rltb_false by lra. reflexivity.
  - subst r2 t1. rewrite Hmax, Hgam.
    replace (- - a - deadzone_deg cfg) with (a - deadzone_deg cfg) by lra.
    destruct (Rltb_spec (deadzone_deg cfg) a).
    + rewrite Rltb_true by lra. reflexivity.
    + rewrite Rltb_false by lra. reflexivity.
Qed.

Lemma mapper_symmetric_witness :
  exists t r,
    map_thr_rev 16 main_cfg = Some (t, r) /\
    map_thr_rev (- 16) main_cfg = Some (r, t).
Proof.
  apply (mapper_symmetric main_cfg 16).
  - exact (proj1 main_cfg_ok).
  - reflexivity.
  - reflexivity.
  - simpl. lra.
Defined.

(** X11.  Where the mapper raises [ZeroDivisionError]: with a zero forward range,
    for every angle beyond the deadzone; with a zero reverse range, for every
    angle at or below minus the deadzone and on the positive edge of the
    deadzone; with a negative reverse exponent, on both edges of the
    deadzone ([0 ** gamma_neg]). *)
Theorem mapper_raises (cfg : config) (a : R) :
  0 <= deadzone_deg cfg ->
  (angle_max_pl_deg cfg = 0 -> deadzone_deg cfg < a ->
   map_thr_rev a cfg = None) /\
  (angle_max_df_deg cfg = 0 ->
   a <= - deadzone_deg cfg \/ a = deadzone_deg cfg ->
   map_thr_rev a cfg = None) /\
  (gamma_neg cfg < 0 -> angle_max_df_deg cfg <> 0 ->
   Rabs a = deadzone_deg cfg ->
   map_thr_rev a cfg = None).
Proof.
  intros Hdz. unfold map_thr_rev, copysign, fdiv.
  repeat split.
  - intros Hpl Ha.
    rewrite (Rabs_pos_eq a) by lra.
    rewrite (Rltb_false a (deadzone_deg cfg)) by lra.
    rewrite (Rltb_false a 0) by lra.
    rewrite (Rabs_pos_eq (a - deadzone_deg cfg)) by lra.
    rewrite Rltb_true by lra. rewrite Reqb_true by exact Hpl. reflexivity.
  - intros Hdf Ha.
    assert (Hout : ~ Rabs a < deadzone_deg cfg).
    { unfold Rabs. destruct (Rcase_abs a); lra. }
    rewrite (Rltb_false _ _ (Rnot_lt_le _ _ Hout)).
    assert (Heff : (if a <? 0 then - Rabs (Rabs a - deadzone_deg cfg)
                    else Rabs (Rabs a - deadzone_deg cfg)) <= 0).
    { destruct (Rltb_spec a 0).
      - pose proof (Rabs_pos (Rabs a - deadzone_deg cfg)). lra.
      - rewrite (Rabs_pos_eq a) by lra.
        assert (a = deadzone_deg cfg) as -> by lra.
        replace (deadzone_deg cfg - deadzone_deg cfg) with 0 by lra.
        rewrite Rabs_R0. lra. }
    rewrite (Rltb_false _ _ Heff). rewrite Reqb_true by exact Hdf.
    reflexivity.
  - intros Hg Hdf Ha. rewrite Ha.
    rewrite Rltb_false by lra.
    replace (deadzone_deg cfg - deadzone_deg cfg) with 0 by lra.
    rewrite Rabs_R0.
    assert (Heff : (if a <? 0 then - 0 else 0) = 0)
      by (destruct (a <? 0); lra).
    rewrite Heff. rewrite (Rltb_false 0 0) by lra.
    rewrite Reqb_false by exact Hdf. simpl.
    replace (- 0 / angle_max_df_deg cfg) with 0 by (unfold Rdiv; ring).
    rewrite clamp_inside by lra.
    unfold py_pow. rewrite (Rltb_false 0 0) by lra.
    rewrite (Reqb_true 0 0) by reflexivity.
    rewrite Rltb_true by exact Hg. reflexivity.
Qed.

Lemma mapper_raises_witness :
  map_thr_rev 3 (sample_cfg 0 30 (9 / 10)) = None /\
  map_thr_rev 2 (sample_cfg 30 0 (9 / 10)) = None /\
  map_thr_rev (-2) (sample_cfg 30 30 (-1)) = None.
Proof.
  split; [| split].
  - destruct (mapper_raises (sample_cfg 0 30 (9 / 10)) 3) as (H & _);
      [simpl; lra |].
    apply H; simpl; lra.
  - destruct (mapper_raises (sample_cfg 30 0 (9 / 10)) 2) as (_ & H & _);
      [simpl; lra |].
    apply H; simpl; lra.
  - destruct (mapper_raises (sample_cfg 30 30 (-1)) (-2)) as (_ & _ & H);
      [simpl; lra |].
    apply H; simpl; try lra.
    rewrite Rabs_left by lra. lra.
Defined.

(** ** Start-up and exceptions *)

(** X12.  [main] needs at least one repetition per direction: with
    [reps_each <= 0] the protocol is empty and [seq[0]] raises before the
    first frame; otherwise the loop starts calibrating, not started, on a
    TRÁS phase of [rep_time] seconds. *)
Theorem startup_needs_a_repetition (cfg : config) (t : R) :
  ((reps_each cfg <= 0)%Z -> init_state (build_seq cfg) t = None) /\
  ((0 < reps_each cfg)%Z ->
   exists s,
     init_state (build_seq cfg) t = Some s /\
     phase_name (proto s) = TRAS /\ phase_left (proto s) = rep_time cfg /\
     idx (proto s) = 0%nat /\
     calibrating (cal s) = true /\ started (proto s) = false /\
     report_rows s = [] /\ speed (kin s) = 0).
Proof.
  unfold init_state. rewrite build_seq_blocks. split; intros Hn.
  - replace (Z.to_nat (reps_each cfg)) with 0%nat by lia. reflexivity.
  - destruct (Z.to_nat (reps_each cfg)) as [| k] eqn:Hk; [lia |].
    simpl. eexists. split; [reflexivity |]. simpl. repeat split.
Qed.

Lemma startup_needs_a_repetition_witness :
  init_state (build_seq (mkConfig 2 1 1 30 30 980 600 1200 900 70 180 8 20
                                  (-20) 3 2 10 2 0 3 (5 / 2) 6)) 0 = None /\
  exists s, init_state (build_seq main_cfg) 0 = Some s /\
            phase_name (proto s) = TRAS.
Proof.
  split.
  - apply startup_needs_a_repetition. simpl. lia.
  - destruct (startup_needs_a_repetition main_cfg 0) as [_ H].
    destruct H as (s & Hs & Hp & _); [simpl; lia |].
    exists s. split; assumption.
Defined.

Lemma handle_event_total (cfg : config) (seq : list (phase * R)) (t : R)
    (s : state) (e : event) :
  seq <> [] -> exists s', handle_event cfg seq t s e = Some s'.
Proof.
  intros Hne.
  assert (Hreset : exists s', reset_session cfg seq t s = Some s').
  { destruct seq as [| [name dur] rest]; [congruence |].
    unfold reset_session. simpl. eexists; reflexivity. }
  destruct e as [| k | pos |]; simpl; try (eexists; reflexivity).
  - destruct k; try (eexists; reflexivity).
    + destruct (negb (started (proto s))); [exact Hreset | eexists; reflexivity].
    + destruct (session_done (proto s)); [exact Hreset | eexists; reflexivity].
  - destruct (session_done (proto s));
      [destruct (collidepoint (restart_btn_rect s) pos) |];
      try (eexists; reflexivity).
    exact Hreset.
Qed.

Lemma handle_events_total (cfg : config) (seq : list (phase * R)) (t : R)
    (es : list event) (s : state) :
  seq <> [] -> exists s', handle_events cfg seq t s es = Some s'.
Proof.
  intros Hne. revert s. induction es as [| e es IH]; intros s; simpl.
  - eexists; reflexivity.
  - destruct (handle_event_total cfg seq t s e Hne) as [s1 H1].
    rewrite H1. simpl. apply IH.
Qed.

(** X13.  With a non-empty protocol, a mapper that never raises and non-zero
    [v_max] and [px_per_m], no frame and no sequence of frames raises while
    it updates the variables of the loop (events, calibration, phases,
    metrics and physics; the drawing calls come after them); with
    [v_max = 0] every frame does ([speed / v_max]). *)
Theorem frames_never_raise (cfg : config) (seq : list (phase * R)) :
  (config_ok cfg -> seq <> [] ->
   (forall s f, exists s', tick cfg seq s f = Some s') /\
   (forall fs s, exists s', run cfg seq s fs = Some s')) /\
  (v_max cfg = 0 -> forall s f, tick cfg seq s f = None).
Proof.
  split.
  - intros Hok Hne.
    assert (Htick : forall s f, exists s', tick cfg seq s f = Some s').
    { intros s f.
      destruct (handle_events_total cfg seq (now f) (events f) s Hne)
        as [s1 H1].
      exact (tick_total cfg seq s s1 f Hok H1). }
    split; [exact Htick |].
    induction fs as [| f fs IH]; intros s; simpl.
    + eexists; reflexivity.
    + destruct (running s); [| eexists; reflexivity].
      destruct (Htick s f) as [s1 H1]. rewrite H1. simpl. apply IH.
  - intros Hv s f. unfold tick.
    destruct (handle_events cfg seq (now f) s (events f)) as [s1 |];
      [| reflexivity].
    simpl.
    destruct (banner_phases cfg seq f
                (angle_used (last_angle f) (read_calibration f (cal s1))
                   (proto s1))
                (read_calibration f (cal s1)) (proto s1) (rep s1)
                (report_rows s1)) as [b [[p m] rows]].
    unfold physics.
    destruct (map_thr_rev _ cfg) as [[thr rev] |]; [| reflexivity].
    simpl. unfold fdiv. rewrite Reqb_true by exact Hv. reflexivity.
Qed.

Lemma frames_never_raise_witness :
  (exists s', tick main_cfg main_seq completed (sample_frame 1 40 None)
              = Some s') /\
  tick (mkConfig 2 1 1 30 30 0 600 1200 900 70 180 8 20 (-20) 3 2 10 2 5 3
                 (5 / 2) 6) main_seq first_phase (sample_frame 1 0 None)
  = None.
Proof.
  split.
  - destruct (frames_never_raise main_cfg main_seq) as [H _].
    destruct H as [Ht _]; [exact main_cfg_ok | discriminate |].
    apply Ht.
  - destruct (frames_never_raise
                (mkConfig 2 1 1 30 30 0 600 1200 900 70 180 8 20 (-20) 3 2
                          10 2 5 3 (5 / 2) 6) main_seq) as [_ H].
    apply H. reflexivity.
Defined.

(** ** Calibration *)





(** ** Motion gating *)

Lemma moving_not_halted (c : calibration) (p : protocol) :
  moving c p = negb (halted c p).
Proof.
  unfold moving, halted.
  destruct (started p), (calibrating c), (session_done p),
    (phase_eqb (phase_name p) TRANSICAO),
    (Rltb_spec 0 (start_cd_left p)), (Rleb_spec (start_cd_left p) 0);
    simpl; try reflexivity; lra.
Qed.

Lemma phase_eqb_eq (p q : phase) : phase_eqb p q = true <-> p = q.
Proof. destruct p, q; simpl; split; intros H; congruence. Qed.

(** X15.  Whenever, at the end of a frame, the session is not started, counting
    down, calibrating, complete or in a TRANSIÇÃO phase, the vehicle is at
    rest after the frame (for non-negative speed limits) and the frame has
    integrated no distance and no time into the average. *)
Theorem motion_disabled (cfg : config) (seq : list (phase * R))
    (s s' : state) (f : frame) :
  tick cfg seq s f = Some s' ->
  0 <= v_rev_max cfg -> 0 <= v_max cfg ->
  started (proto s') = false \/ 0 < start_cd_left (proto s') \/
  calibrating (cal s') = true \/ session_done (proto s') = true \/
  phase_name (proto s') = TRANSICAO ->
  speed (kin s') = 0 /\
  exists s1,
    handle_events cfg seq (now f) s (events f) = Some s1 /\
    dist_signed_px (kin s') = dist_signed_px (kin s1) /\
    acc_abs_dist_m (kin s') = acc_abs_dist_m (kin s1) /\
    acc_time_s (kin s') = acc_time_s (kin s1).
Proof.
  intros Ht Hrev Hmax Hwhy.
  destruct (tick_some cfg seq s s' f Ht) as (s1 & k & Hev & H).
  cbv zeta in H. destruct H as (Hk & _ & Hc & Hp & _ & _ & Hkin & _).
  rewrite <- Hp in Hk. rewrite <- Hc in Hk.
  assert (Hhalt : halted (cal s') (proto s') = true).
  { unfold halted.
    destruct Hwhy as [H | [H | [H | [H | H]]]].
    - rewrite H. reflexivity.
    - rewrite (Rltb_true _ _ H). rewrite orb_true_r. reflexivity.
    - rewrite H. rewrite !orb_true_r. reflexivity.
    - rewrite H. rewrite !orb_true_r. reflexivity.
    - rewrite H. simpl. rewrite !orb_true_r. reflexivity. }
  unfold physics in Hk. rewrite moving_not_halted, Hhalt in Hk.
  apply bind_some in Hk. destruct Hk as ([thr rev] & _ & Hk).
  apply bind_some in Hk. destruct Hk as (q & _ & Hk).
  simpl in Hk. injection Hk as <-. rewrite Hkin. simpl.
  split.
  - replace (0 + 0 * dt f) with 0 by lra. apply clamp_inside. lra.
  - exists s1. repeat split. exact Hev.
Qed.

Lemma motion_disabled_witness :
  exists s',
    tick main_cfg main_seq transition_start (sample_frame 1 30 None)
    = Some s' /\ speed (kin s') = 0.
Proof.
  destruct (tick_no_events main_cfg main_seq transition_start
              (sample_frame 1 30 None) main_cfg_ok eq_refl)
    as (s' & Ht & Hp & _).
  exists s'. split; [exact Ht |].
  apply (motion_disabled main_cfg main_seq transition_start s'
           (sample_frame 1 30 None) Ht); simpl; try lra.
  right. right. right. right.
  assert (Habs : Rabs (30 - 0) = 30) by (rewrite Rabs_pos_eq; lra).
  rewrite Hp. run_frame. reflexivity.
Defined.

(** ** What a frame can do to the session *)

(** The four outcomes of the phase logic: the phase goes on, a transition
    exits, a repetition ends with its row, a rest phase ends. *)
Lemma phase_step_cases (cfg : config) (seq : list (phase * R)) (d a : R)
    (p : protocol) (m : metrics) (rows : list row) :
  let r := phase_step cfg seq d a p m rows in
  (exists left ok total,
      r = (set_timers p left ok total (reps_done p), m, rows) /\
      (phase_name p <> TRANSICAO ->
       ok = settle_ok_time p /\ total = settle_total_time p)) \/
  (exists left,
      phase_name p = TRANSICAO /\
      r = (advance seq (set_timers p left 0 0 (reps_done p)), m, rows)) \/
  (exists left,
      is_rep (phase_name p) = true /\
      r = (advance seq
             (set_timers p left (settle_ok_time p) (settle_total_time p)
                (S (reps_done p))),
           fresh_metrics, rows ++ [rep_row (phase_name p) m])) \/
  (exists left,
      is_rep (phase_name p) = false /\ phase_name p <> TRANSICAO /\
      r = (advance seq
             (set_timers p left (settle_ok_time p) (settle_total_time p)
                (reps_done p)),
           m, rows)).
Proof.
  cbv zeta. unfold phase_step.
  destruct (phase_eqb (phase_name p) TRANSICAO) eqn:Hph.
  - apply phase_eqb_eq in Hph. unfold settle_step.
    match goal with |- context [if ?b then _ else _] => destruct b end.
    + right. left. eexists. split; [exact Hph | reflexivity].
    + left. do 3 eexists. split; [reflexivity |]. congruence.
  - assert (Hne : phase_name p <> TRANSICAO).
    { intros H. apply phase_eqb_eq in H. congruence. }
    unfold timed_step.
    destruct (Rleb_spec (phase_left p - d) 0).
    + destruct (is_rep (phase_name p)) eqn:Hrep.
      * right. right. left. eexists. split; reflexivity.
      * right. right. right. eexists. repeat split. exact Hne.
    + left. do 3 eexists. split; [reflexivity |]. intros _. split; reflexivity.
Qed.

(** The banner chain leaves the session alone, counts down, or runs the
    phase logic of a session that is not complete. *)
Lemma banner_phases_cases (cfg : config) (seq : list (phase * R))
    (f : frame) (a : R) (c : calibration) (p : protocol) (m : metrics)
    (rows : list row) :
  let r := snd (banner_phases cfg seq f a c p m rows) in
  r = (p, m, rows) \/
  r = (count_down (dt f) p, m, rows) \/
  (session_done p = false /\ r = phase_step cfg seq (dt f) a p m rows).
Proof.
  cbv zeta. destruct (phase_running f c p) eqn:Hrun.
  - right. right.
    rewrite (banner_phases_running _ _ _ _ _ _ _ _ Hrun).
    apply phase_running_spec in Hrun. split; [tauto | reflexivity].
  - destruct (banner_phases_idle cfg seq f a c p m rows Hrun) as [H | H];
      rewrite H; auto.
Qed.

(** An event leaves the session as it is or resets it. *)
Lemma handle_event_cases (cfg : config) (seq : list (phase * R)) (t : R)
    (s s1 : state) (e : event) :
  handle_event cfg seq t s e = Some s1 ->
  (proto s1 = proto s /\ rep s1 = rep s /\
   report_rows s1 = report_rows s /\ kin s1 = kin s) \/
  (exists name dur,
      nth_error seq 0 = Some (name, dur) /\ reset_state cfg name dur t s1).
Proof.
  assert (Hreset : forall s2, reset_session cfg seq t s = Some s2 ->
            exists name dur,
              nth_error seq 0 = Some (name, dur) /\
              reset_state cfg name dur t s2).
  { intros s2 H. unfold reset_session in H.
    apply bind_some in H. destruct H as ([name dur] & H0 & H).
    exists name, dur. split; [exact H0 |].
    injection H as <-. unfold reset_state. simpl. repeat split. }
  assert (Hsame : forall s2, Some s = Some s2 ->
            proto s2 = proto s /\ rep s2 = rep s /\
            report_rows s2 = report_rows s /\ kin s2 = kin s).
  { intros s2 H. injection H as <-. repeat split. }
  destruct e as [| k | pos |]; simpl.
  - intros H. injection H as <-. left. repeat split.
  - destruct k; try (intros H; left; apply Hsame; exact H).
    + intros H. injection H as <-. left. repeat split.
    + destruct (negb (started (proto s))); intros H;
        [right; apply Hreset | left; apply Hsame]; exact H.
    + destruct (session_done (proto s)); intros H;
        [right; apply Hreset | left; apply Hsame]; exact H.
    + intros H. injection H as <-. left. repeat split.
  - destruct (session_done (proto s));
      [destruct (collidepoint (restart_btn_rect s) pos) |]; intros H;
      [right; apply Hreset | left; apply Hsame | left; apply Hsame]; exact H.
  - intros H. left. apply Hsame. exact H.
Qed.

(** ** The invariants are kept *)

Lemma firstn_snoc {A : Type} (l : list A) (i : nat) (x : A) :
  nth_error l i = Some x -> firstn (S i) l = firstn i l ++ [x].
Proof.
  revert i. induction l as [| y l IH]; intros i H.
  - destruct i; discriminate.
  - destruct i as [| i].
    + simpl in H. injection H as ->. reflexivity.
    + simpl in H. change (firstn (S (S i)) (y :: l))
        with (y :: firstn (S i) l).
      rewrite (IH i H). reflexivity.
Qed.

Lemma rep_phases_snoc (l : list (phase * R)) (ph : phase) (dur : R) :
  rep_phases (l ++ [(ph, dur)]) =
  rep_phases l ++ (if is_rep ph then [ph] else []).
Proof.
  unfold rep_phases. rewrite map_app, filter_app. simpl.
  destruct (is_rep ph); reflexivity.
Qed.

Lemma pos_inv_timers (seq : list (phase * R)) (p : protocol)
    (rows : list row) (left ok total : R) :
  pos_inv seq p rows ->
  pos_inv seq (set_timers p left ok total (reps_done p)) rows.
Proof. intros H. exact H. Qed.

Lemma pos_inv_count_down (seq : list (phase * R)) (p : protocol)
    (rows : list row) (d : R) :
  pos_inv seq p rows -> pos_inv seq (count_down d p) rows.
Proof. intros H. exact H. Qed.

Lemma pos_inv_advance (seq : list (phase * R)) (p : protocol)
    (rows rows' : list row) (left ok total : R) (reps : nat) :
  pos_inv seq p rows -> session_done p = false ->
  reps = length rows' ->
  map dir rows' =
    map dir rows ++ (if is_rep (phase_name p) then [phase_name p] else []) ->
  pos_inv seq (advance seq (set_timers p left ok total reps)) rows'.
Proof.
  intros (_ & Hcur & _ & Hdirs) Hdone Hreps Hrows.
  destruct (Hcur Hdone) as [dur Hnth].
  assert (Hfirst : map dir rows' = rep_phases (firstn (S (idx p)) seq)).
  { rewrite (firstn_snoc seq (idx p) _ Hnth), rep_phases_snoc, <- Hdirs.
    exact Hrows. }
  unfold advance, set_timers.
  cbn [idx started start_cd_left session_done phase_name phase_left
       reps_done settle_ok_time settle_total_time].
  destruct (nth_error seq (S (idx p))) as [[name dur'] |] eqn:Hnext;
    unfold pos_inv;
    cbn [idx started start_cd_left session_done phase_name phase_left
         reps_done settle_ok_time settle_total_time].
  - split; [exact Hreps |].
    split; [intros _; exists dur'; exact Hnext |].
    split; [intros H; congruence | exact Hfirst].
  - split; [exact Hreps |].
    split; [discriminate |].
    split; [intros _; apply nth_error_None; exact Hnext | exact Hfirst].
Qed.

Lemma acc_inv_advance (seq : list (phase * R)) (p : protocol) (m : metrics)
    (left : R) (reps : nat) :
  m = fresh_metrics ->
  acc_inv (advance seq (set_timers p left 0 0 reps)) m.
Proof.
  intros ->. unfold acc_inv, advance, set_timers.
  cbn [idx started start_cd_left session_done phase_name phase_left
       reps_done settle_ok_time settle_total_time].
  destruct (nth_error seq (S (idx p))) as [[name dur] |]; simpl;
    split; intros _; try reflexivity; split; reflexivity.
Qed.

Lemma row_ok_rep_row (ph : phase) (m : metrics) :
  is_rep ph = true ->
  (forall t, rep_t_to_target m = Some t -> 0 <= t) ->
  row_ok (rep_row ph m).
Proof.
  intros Hrep Ht. unfold row_ok, rep_row. simpl.
  split; [exact Hrep |]. split.
  - eexists. split; [reflexivity |]. unfold final_extreme, py_max, py_min.
    split; intros ->; simpl; rcases; lra.
  - intros t H. destruct (rep_t_to_target m) as [t' |]; simpl in H;
      [| discriminate].
    injection H as <-. apply Ht. reflexivity.
Qed.

Lemma met_inv_fresh (rows : list row) :
  Forall row_ok rows -> met_inv fresh_metrics rows.
Proof.
  intros H. unfold met_inv. simpl.
  repeat split; try reflexivity; try discriminate; try lra. exact H.
Qed.

Lemma met_inv_update (cfg : config) (ph : phase) (d a : R) (m : metrics)
    (rows : list row) :
  0 <= d -> met_inv m rows ->
  met_inv (update_metrics cfg ph d a m) rows.
Proof.
  intros Hd (Hiff & Ht & Hel & Hrows). unfold met_inv, update_metrics.
  destruct (rep_hit m) eqn:Hhit; [| destruct (target_reached cfg ph a)];
    simpl.
  - split; [exact Hiff |].
    split; [intros t H; pose proof (Ht t H); lra |].
    split; [lra | exact Hrows].
  - split; [split; discriminate |].
    split; [intros t H; injection H as <-; lra |].
    split; [lra | exact Hrows].
  - split; [exact Hiff |].
    split; [intros t H; pose proof (Ht t H); lra |].
    split; [lra | exact Hrows].
Qed.

Lemma tri_inv_phase_step (cfg : config) (seq : list (phase * R)) (d a : R)
    (p : protocol) (m : metrics) (rows : list row) :
  tri_inv seq (p, m, rows) -> session_done p = false ->
  tri_inv seq (phase_step cfg seq d a p m rows).
Proof.
  intros (Hpos & Hacc & Hmet) Hdone. simpl in Hpos, Hacc, Hmet.
  destruct Hacc as [Hfresh Hsettle].
  destruct (phase_step_cases cfg seq d a p m rows)
    as [(left & ok & total & -> & Hhold)
       | [(left & Hph & ->)
         | [(left & Hrep & ->) | (left & Hrep & Hne & ->)]]];
    unfold tri_inv; simpl.
  - split; [exact Hpos |]. split; [| exact Hmet].
    unfold acc_inv, set_timers. simpl. split; [exact Hfresh |].
    intros Hne. destruct (Hhold Hne) as [-> ->]. apply Hsettle. exact Hne.
  - assert (Hm : m = fresh_metrics) by (apply Hfresh; rewrite Hph; reflexivity).
    split; [| split; [apply acc_inv_advance; exact Hm | exact Hmet]].
    apply (pos_inv_advance seq p rows rows); try assumption.
    + apply Hpos.
    + rewrite Hph. simpl. rewrite app_nil_r. reflexivity.
  - assert (Hne : phase_name p <> TRANSICAO)
      by (intros H; rewrite H in Hrep; discriminate).
    destruct (Hsettle Hne) as [-> ->].
    destruct Hmet as (Hiff & Ht & Hel & Hrows).
    split; [| split; [apply acc_inv_advance; reflexivity |]].
    + apply (pos_inv_advance seq p rows); try assumption.
      * rewrite length_app. simpl. destruct Hpos as [-> _]. lia.
      * rewrite map_app, Hrep. reflexivity.
    + apply met_inv_fresh. apply Forall_app. split; [exact Hrows |].
      apply Forall_cons; [| apply Forall_nil].
      apply row_ok_rep_row; [exact Hrep |].
      intros t H. apply (Ht t H).
  - destruct (Hsettle Hne) as [-> ->].
    split; [| split; [apply acc_inv_advance; apply Hfresh; exact Hrep
                     | exact Hmet]].
    apply (pos_inv_advance seq p rows rows); try assumption.
    + apply Hpos.
    + rewrite Hrep. rewrite app_nil_r. reflexivity.
Qed.

Lemma tri_inv_banner (cfg : config) (seq : list (phase * R)) (f : frame)
    (a : R) (c : calibration) (p : protocol) (m : metrics) (rows : list row) :
  tri_inv seq (p, m, rows) ->
  tri_inv seq (snd (banner_phases cfg seq f a c p m rows)).
Proof.
  intros Hinv.
  destruct (banner_phases_cases cfg seq f a c p m rows)
    as [-> | [-> | [Hdone ->]]].
  - exact Hinv.
  - exact Hinv.
  - apply tri_inv_phase_step; assumption.
Qed.

Lemma tri_inv_metrics (cfg : config) (seq : list (phase * R)) (d a : R)
    (c : calibration) (p : protocol) (m : metrics) (rows : list row) :
  0 <= d -> tri_inv seq (p, m, rows) ->
  tri_inv seq (p, rep_metrics cfg d a c p m, rows).
Proof.
  intros Hd (Hpos & Hacc & Hmet). unfold tri_inv, rep_metrics. simpl in *.
  destruct (active c p && is_rep (phase_name p)) eqn:Hon.
  - apply andb_true_iff in Hon. destruct Hon as [_ Hrep].
    split; [exact Hpos |]. split.
    + split; [intros H; congruence | apply Hacc].
    + apply met_inv_update; assumption.
  - split; [assumption | split; assumption].
Qed.

Lemma state_inv_reset (cfg : config) (seq : list (phase * R)) (s1 : state)
    (name : phase) (dur t : R) :
  nth_error seq 0 = Some (name, dur) ->
  reset_state cfg name dur t s1 ->
  state_inv cfg seq s1.
Proof.
  intros H0 (Hp & Hm & Hrows & _).
  unfold state_inv. rewrite Hp, Hm, Hrows.
  split; [| split; [| apply met_inv_fresh; apply Forall_nil]].
  - unfold pos_inv. simpl. repeat split; try discriminate.
    intros _. exists dur. exact H0.
  - unfold acc_inv. simpl. split; intros _; [| split]; reflexivity.
Qed.

Lemma state_inv_events (cfg : config) (seq : list (phase * R)) (t : R)
    (es : list event) (s s1 : state) :
  state_inv cfg seq s ->
  handle_events cfg seq t s es = Some s1 ->
  state_inv cfg seq s1.
Proof.
  revert s. induction es as [| e es IH]; intros s Hinv H; simpl in H.
  - injection H as <-. exact Hinv.
  - apply bind_some in H. destruct H as (s2 & He & H).
    apply (IH s2); [| exact H].
    destruct (handle_event_cases cfg seq t s s2 e He)
      as [(Hp & Hm & Hrows & _) | (name & dur & H0 & Hreset)].
    + unfold state_inv. rewrite Hp, Hm, Hrows. exact Hinv.
    + exact (state_inv_reset cfg seq s2 name dur t H0 Hreset).
Qed.

Lemma state_inv_tick (cfg : config) (seq : list (phase * R)) (s s' : state)
    (f : frame) :
  state_inv cfg seq s -> 0 <= dt f ->
  tick cfg seq s f = Some s' ->
  state_inv cfg seq s'.
Proof.
  intros Hinv Hd Ht.
  destruct (tick_some cfg seq s s' f Ht) as (s1 & k & Hev & H).
  cbv zeta in H. destruct H as (_ & _ & _ & Hp & Hm & Hrows & _).
  pose proof (state_inv_events cfg seq (now f) (events f) s s1 Hinv Hev)
    as Hinv1.
  set (c := read_calibration f (cal s1)) in *.
  set (a := angle_used (last_angle f) c (proto s1)) in *.
  pose proof (tri_inv_banner cfg seq f a c (proto s1) (rep s1)
                (report_rows s1) Hinv1) as Hb.
  destruct (snd (banner_phases cfg seq f a c (proto s1) (rep s1)
                   (report_rows s1))) as [[p m] rows].
  simpl in Hp, Hm, Hrows.
  pose proof (tri_inv_metrics cfg seq (dt f) a c p m rows Hd Hb) as Hfin.
  unfold state_inv. rewrite Hp, Hm, Hrows. exact Hfin.
Qed.

Lemma state_inv_init (cfg : config) (seq : list (phase * R)) (t : R)
    (s : state) :
  init_state seq t = Some s -> state_inv cfg seq s.
Proof.
  unfold init_state. intros H.
  apply bind_some in H. destruct H as ([name dur] & H0 & H).
  injection H as <-. unfold state_inv. simpl.
  split; [| split; [| apply met_inv_fresh; apply Forall_nil]].
  - unfold pos_inv. simpl. repeat split; try discriminate.
    intros _. exists dur. exact H0.
  - unfold acc_inv. simpl. split; intros _; [| split]; reflexivity.
Qed.

Lemma reachable_inv (cfg : config) (seq : list (phase * R)) (s : state) :
  reachable cfg seq s -> state_inv cfg seq s.
Proof.
  induction 1 as [t s H | s s' f _ IH _ Hd Ht].
  - exact (state_inv_init cfg seq t s H).
  - exact (state_inv_tick cfg seq s s' f IH Hd Ht).
Qed.

(** ** A session played to its end *)

Lemma plain_step (cfg : config) (seq : list (phase * R)) (s : state)
    (f : frame) :
  config_ok cfg -> reachable cfg seq s -> in_session s ->
  plain f = true -> 0 <= dt f ->
  exists s',
    reachable cfg seq s' /\ tick cfg seq s f = Some s' /\
    running s' = true /\ cal s' = cal s /\
    proto s' =
      fst (fst (phase_step cfg seq (dt f) (last_angle f - zero (cal s))
                  (proto s) (rep s) (report_rows s))).
Proof.
  intros Hok Hreach Hin Hpl Hd.
  destruct (tick_plain cfg seq s f Hok Hin Hpl)
    as (s' & Ht & Hrun & Hcal & Hp & _).
  exists s'. split; [| repeat split; assumption].
  apply (reach_tick cfg seq s s' f); try assumption. apply Hin.
Qed.

(** The first frame of the demonstration: SPACE starts the session, the
    initial calibration ends and the countdown is used up at once. *)
Lemma main_session_starts :
  exists s,
    reachable main_cfg main_seq s /\ in_session s /\
    zero (cal s) = 0 /\ proto s = at_phase 0 TRAS 10 (8 - 10) 0.
Proof.
  assert (Hinit0 : init_state main_seq 0 = Some
           {| running := true;
            cal := {| zero := 0; calibrating := true; cal_t0 := 0;
                      cal_buf := [] |};
            proto := {| started := false; start_cd_left := 0;
                        session_done := false; idx := 0;
                        phase_name := TRAS; phase_left := 10;
                        reps_done := 0;
                        settle_ok_time := 0; settle_total_time := 0 |};
            rep := fresh_metrics; report_rows := []; kin := still;
            angle := 0; ang_rate := 0; prev_angle_used := 0;
            angle_state := neutral; session_t0 := None; banner := None;
            restart_btn_rect := (0, 0, 0, 0)%Z |}) by reflexivity.
  match type of Hinit0 with _ = Some ?s => set (s0 := s) in * end.
  assert (Hev : exists s1,
            handle_events main_cfg main_seq (now start_frame) s0
              (events start_frame) = Some s1 /\
            cal s1 = cal s0 /\ running s1 = true /\
            proto s1 = at_phase 0 TRAS 10 8 0).
  { simpl. eexists. split; [reflexivity |].
    simpl. repeat split. }
  destruct Hev as (s1 & Hev & Hcal1 & Hrun1 & Hp1).
  destruct (tick_total main_cfg main_seq s0 s1 start_frame main_cfg_ok Hev)
    as [s Ht].
  exists s.
  split.
  { apply (reach_tick main_cfg main_seq s0 s start_frame).
    - apply (reach_init main_cfg main_seq 0). exact Hinit0.
    - reflexivity.
    - simpl. lra.
    - exact Ht. }
  destruct (tick_some main_cfg main_seq s0 s start_frame Ht)
    as (s1' & k & Hev' & H).
  rewrite Hev in Hev'. injection Hev' as <-.
  cbv zeta in H. destruct H as (_ & Hrun & Hc & Hp & _).
  rewrite Hcal1 in Hc. rewrite Hcal1, Hp1 in Hp.
  assert (Hc' : cal s = {| zero := mean [0]; calibrating := false;
                           cal_t0 := 0; cal_buf := [0] |}).
  { rewrite Hc. unfold read_calibration, CAL_TIME. simpl. rdecide.
    reflexivity. }
  assert (Hz : mean [0] = 0) by (unfold mean; simpl; lra).
  assert (Hp' : proto s = at_phase 0 TRAS 10 (8 - 10) 0).
  { rewrite Hp. unfold read_calibration, CAL_TIME. simpl. rdecide.
    run_frame. reflexivity. }
  unfold in_session. rewrite Hrun, Hrun1, Hc', Hp'. simpl.
  repeat split; lra.
Qed.

(** One more plain frame of ten seconds with the foot at rest: the current
    phase ends.  The facts about the state reached replace those about the
    state left. *)
Ltac next_phase :=
  match goal with
  | Hreach : reachable main_cfg main_seq ?s, Hin : in_session ?s,
    Hz : zero (cal ?s) = 0, Hp : proto ?s = _ |- _ =>
      let s' := fresh "s" in
      let Hr' := fresh "Hreach" in
      let Hrun' := fresh "Hrun" in
      let Hcal' := fresh "Hcal" in
      let Hp' := fresh "Hp" in
      let Hq := fresh "Hq" in
      let Hin' := fresh "Hin" in
      destruct (plain_step main_cfg main_seq s long_frame main_cfg_ok
                  Hreach Hin eq_refl) as (s' & Hr' & _ & Hrun' & Hcal' & Hp');
      [ simpl; lra | ];
      rewrite Hz, Hp in Hp';
      eassert (Hq : proto s' = _)
        by (rewrite Hp'; run_frame; reflexivity);
      clear Hp'; rewrite <- Hcal' in Hz;
      try (assert (Hin' : in_session s')
             by (destruct Hin as (_ & Hc0 & _); unfold in_session;
                 rewrite Hrun', Hcal', Hc0, Hq; simpl; repeat split; lra));
      clear Hreach Hin Hp Hrun' Hcal'
  end.

(** The session of [main] can be played to its end: SPACE, then twenty
    frames of ten seconds. *)
Lemma main_session_completes :
  exists s,
    reachable main_cfg main_seq s /\ session_done (proto s) = true /\
    phase_name (proto s) = TRANSICAO.
Proof.
  destruct main_session_starts as (s & Hreach & Hin & Hz & Hp).
  assert (Habs : Rabs (0 - 0) = 0)
    by (replace (0 - 0) with 0 by lra; apply Rabs_R0).
  do 20 next_phase.
  match goal with
  | Hreach : reachable main_cfg main_seq ?s, Hp : proto ?s = _ |- _ =>
      exists s; split; [exact Hreach | rewrite Hp; split; reflexivity]
  end.
Qed.

(** ** The report and the protocol *)

Lemma reachable_nonempty (cfg : config) (seq : list (phase * R)) (s : state) :
  reachable cfg seq s -> seq <> [].
Proof.
  induction 1 as [t s H | s s' f _ IH _ _ _]; [| exact IH].
  unfold init_state in H. intros ->. discriminate H.
Qed.

(** X16.  In every state of a run the repetition counter is the number of rows of
    the report, the rows carry, in order, the directions of the repetition
    phases already left, and as long as the session is not complete the
    current phase is the entry of the protocol at the phase index. *)
Theorem report_follows_protocol (cfg : config) (seq : list (phase * R))
    (s : state) :
  reachable cfg seq s ->
  reps_done (proto s) = length (report_rows s) /\
  map dir (report_rows s) = rep_phases (firstn (idx (proto s)) seq) /\
  (session_done (proto s) = false ->
   exists dur,
     nth_error seq (idx (proto s)) = Some (phase_name (proto s), dur)) /\
  (session_done (proto s) = true -> (length seq <= idx (proto s))%nat).
Proof.
  intros Hreach.
  destruct (reachable_inv cfg seq s Hreach) as ((H1 & H2 & H3 & H4) & _).
  repeat split; assumption.
Qed.

Lemma report_follows_protocol_witness :
  exists s,
    reachable main_cfg main_seq s /\
    reps_done (proto s) = length (report_rows s).
Proof.
  destruct main_session_completes as (s & Hreach & _).
  exists s. split; [exact Hreach |].
  apply (report_follows_protocol main_cfg main_seq s Hreach).
Defined.

Lemma rep_phases_blocks (cfg : config) (n : nat) :
  rep_phases (concat (repeat (block cfg) n)) =
  concat (repeat [TRAS; FRENTE] n).
Proof.
  induction n as [| n IH]; [reflexivity |].
  simpl. unfold rep_phases in *. simpl. rewrite IH. reflexivity.
Qed.

Lemma complete_rows (cfg : config) (s : state) :
  reachable cfg (build_seq cfg) s -> session_done (proto s) = true ->
  map dir (report_rows s) =
  concat (repeat [TRAS; FRENTE] (Z.to_nat (reps_each cfg))).
Proof.
  intros Hreach Hdone.
  destruct (reachable_inv cfg _ s Hreach) as ((_ & _ & Hlen & Hdirs) & _).
  rewrite Hdirs, firstn_all2 by (apply Hlen; exact Hdone).
  rewrite build_seq_blocks. apply rep_phases_blocks.
Qed.

Lemma alternating_length (n : nat) :
  length (concat (repeat [TRAS; FRENTE] n)) = (2 * n)%nat.
Proof. induction n as [| n IH]; simpl; [reflexivity | rewrite IH; lia]. Qed.

(** X17.  When a session of [main] is complete its report has one row per
    repetition phase of the protocol: [2 * reps_each] rows, alternating
    TRÁS and FRENTE, and the repetition counter shows [total_reps]. *)
Theorem complete_session_report (cfg : config) (s : state) :
  reachable cfg (build_seq cfg) s ->
  session_done (proto s) = true ->
  map dir (report_rows s) =
    concat (repeat [TRAS; FRENTE] (Z.to_nat (reps_each cfg))) /\
  Z.of_nat (length (report_rows s)) = total_reps cfg /\
  Z.of_nat (reps_done (proto s)) = total_reps cfg.
Proof.
  intros Hreach Hdone.
  pose proof (complete_rows cfg s Hreach Hdone) as Hdirs.
  assert (Hlen : length (report_rows s)
                 = (2 * Z.to_nat (reps_each cfg))%nat).
  { rewrite <- (length_map dir), Hdirs. apply alternating_length. }
  assert (Hpos : (0 < reps_each cfg)%Z).
  { pose proof (reachable_nonempty cfg _ s Hreach) as Hne.
    rewrite build_seq_blocks in Hne.
    destruct (Z.to_nat (reps_each cfg)) eqn:Hn; [| lia].
    simpl in Hne. congruence. }
  destruct (reachable_inv cfg _ s Hreach) as ((Hreps & _) & _).
  split; [exact Hdirs |].
  unfold total_reps. rewrite Hreps, Hlen. split; lia.
Qed.

Lemma complete_session_report_witness :
  exists s,
    reachable main_cfg (build_seq main_cfg) s /\
    session_done (proto s) = true /\
    Z.of_nat (length (report_rows s)) = 10%Z.
Proof.
  destruct main_session_completes as (s & Hreach & Hdone & _).
  exists s. split; [exact Hreach |]. split; [exact Hdone |].
  apply (complete_session_report main_cfg s Hreach Hdone).
Defined.



(** X19.  In every state of a run both settle accumulators are 0 unless the
    current phase is a TRANSIÇÃO, so each transition starts from 0; and the
    repetition metrics are fresh unless the current phase is a repetition. *)
Theorem accumulators_at_rest (cfg : config) (seq : list (phase * R))
    (s : state) :
  reachable cfg seq s ->
  (phase_name (proto s) <> TRANSICAO ->
   settle_ok_time (proto s) = 0 /\ settle_total_time (proto s) = 0) /\
  (is_rep (phase_name (proto s)) = false -> rep s = fresh_metrics).
Proof.
  intros Hreach.
  destruct (reachable_inv cfg seq s Hreach) as (_ & (Hm & Hs) & _).
  split; assumption.
Qed.

Lemma accumulators_at_rest_witness :
  exists s, reachable main_cfg main_seq s /\ rep s = fresh_metrics.
Proof.
  destruct main_session_completes as (s & Hreach & _ & Hph).
  exists s. split; [exact Hreach |].
  apply (accumulators_at_rest main_cfg main_seq s Hreach).
  rewrite Hph. reflexivity.
Defined.

(** X20.  In every state of a run the time to target of the repetition in
    progress is recorded exactly when the target has been hit, and a
    recorded time is not negative and not larger than the time elapsed in
    the repetition. *)
Theorem hit_and_time_agree (cfg : config) (seq : list (phase * R))
    (s : state) :
  reachable cfg seq s ->
  (rep_hit (rep s) = true <-> exists t, rep_t_to_target (rep s) = Some t) /\
  (forall t, rep_t_to_target (rep s) = Some t ->
             0 <= t <= rep_t_elapsed (rep s)) /\
  0 <= rep_t_elapsed (rep s).
Proof.
  intros Hreach.
  destruct (reachable_inv cfg seq s Hreach)
    as (_ & _ & (Hiff & Ht & Hel & _)).
  split; [| split; assumption].
  destruct (rep_hit (rep s)), (rep_t_to_target (rep s)) as [t |].
  - split; [intros _; exists t; reflexivity | reflexivity].
  - destruct Hiff as [_ H]. discriminate (H eq_refl).
  - destruct Hiff as [H _]. discriminate (H eq_refl).
  - split; [discriminate | intros [t H]; discriminate H].
Qed.

Lemma hit_and_time_agree_witness :
  exists s, reachable main_cfg main_seq s /\ 0 <= rep_t_elapsed (rep s).
Proof.
  destruct main_session_completes as (s & Hreach & _).
  exists s. split; [exact Hreach |].
  apply (hit_and_time_agree main_cfg main_seq s Hreach).
Defined.

(** ** Average speed *)







(** X23.  Coasting: with the angle inside the deadzone and motion enabled, a
    frame multiplies the speed by [1 - drag * dt / v_max]; for
    [0 <= drag * dt <= v_max] and a speed within the limits the vehicle
    slows down without changing direction. *)
Theorem coasting_slows_down (cfg : config) (d a : R) (c : calibration)
    (p : protocol) (k k' : kinematics) :
  physics cfg d a c p k = Some k' ->
  Rabs a < deadzone_deg cfg -> halted c p = false ->
  0 < v_max cfg -> 0 <= v_rev_max cfg ->
  0 <= drag cfg * d <= v_max cfg ->
  - v_rev_max cfg <= speed k <= v_max cfg ->
  speed k' = speed k * (1 - drag cfg * d / v_max cfg) /\
  Rabs (speed k') <= Rabs (speed k) /\
  0 <= speed k * speed k'.
Proof.
  intros H Hdz Hhalt Hv Hrev Hdrag Hlim. unfold physics in H.
  unfold map_thr_rev in H. rewrite (Rltb_true _ _ Hdz) in H. simpl in H.
  rewrite fdiv_some in H by lra. simpl in H. rewrite Hhalt in H.
  set (phi := 1 - drag cfg * d / v_max cfg).
  assert (Hphi : 0 <= phi <= 1).
  { unfold phi.
    assert (0 <= drag cfg * d / v_max cfg <= 1); [| lra].
    assert (Hinv : 0 < / v_max cfg) by (apply Rinv_0_lt_compat; exact Hv).
    assert (Hid : v_max cfg * / v_max cfg = 1) by (field; lra).
    unfold Rdiv. split; nra. }
  assert (Hval : speed k +
                 (a_max cfg * 0 - a_rev_max cfg * 0
                  - drag cfg * (speed k / v_max cfg)) * d
                 = speed k * phi) by (unfold phi; field; lra).
  rewrite Hval in H.
  assert (Hin : - v_rev_max cfg <= speed k * phi <= v_max cfg) by nra.
  rewrite (clamp_inside _ _ _ Hin) in H.
  assert (Hs : speed k' = speed k * phi).
  { destruct (moving c p).
    - apply bind_some in H. destruct H as (m & _ & H).
      injection H as <-. reflexivity.
    - injection H as <-. reflexivity. }
  split; [exact Hs |]. rewrite Hs. split.
  - rewrite Rabs_mult, (Rabs_pos_eq phi) by lra.
    pose proof (Rabs_pos (speed k)). nra.
  - nra.
Qed.

Lemma coasting_slows_down_witness :
  exists k',
    physics main_cfg (1 / 10) 0 calibrated (at_phase 0 TRAS 10 0 0)
      {| speed := 490; dist_signed_px := 0; road_x := 0; far_ofs := 0;
         mid_ofs := 0; acc_abs_dist_m := 0; acc_time_s := 0 |} = Some k' /\
    Rabs (speed k') <= Rabs 490.
Proof.
  destruct (physics_total main_cfg (1 / 10) 0 calibrated
              (at_phase 0 TRAS 10 0 0)
              {| speed := 490; dist_signed_px := 0; road_x := 0;
                 far_ofs := 0; mid_ofs := 0; acc_abs_dist_m := 0;
                 acc_time_s := 0 |} main_cfg_ok) as [k' Hk].
  exists k'. split; [exact Hk |].
  apply (coasting_slows_down main_cfg (1 / 10) 0 calibrated
           (at_phase 0 TRAS 10 0 0) _ k' Hk); simpl; try lra.
  - rewrite Rabs_R0. lra.
  - unfold halted. simpl. rdecide. reflexivity.
Defined.

(** ** The extreme of a repetition *)

Lemma update_metrics_ext (cfg : config) (ph : phase) (d a : R) (m : metrics) :
  rep_ang_ext (update_metrics cfg ph d a m) =
  Some match rep_ang_ext m with
       | None => a
       | Some e => if phase_eqb ph FRENTE then Rmax e a else Rmin e a
       end.
Proof.
  unfold update_metrics. cbv zeta.
  destruct (negb (rep_hit m) && target_reached cfg ph a);
    cbn [rep_ang_ext]; destruct (rep_ang_ext m) as [e |];
    try rewrite py_max_Rmax; try rewrite py_min_Rmin; reflexivity.
Qed.

Lemma collect_ext_front (cfg : config) (xs : list (R * R)) (m : metrics)
    (e : R) :
  rep_ang_ext m = Some e ->
  rep_ang_ext (collect cfg FRENTE m xs) =
  Some match xs with
       | [] => e
       | x :: rest => Rmax e (max_angle x rest)
       end.
Proof.
  revert m e. induction xs as [| x xs IH]; intros m e He; [exact He |].
  change (collect cfg FRENTE m (x :: xs))
    with (collect cfg FRENTE (update_metrics cfg FRENTE (fst x) (snd x) m) xs).
  rewrite (IH _ (Rmax e (snd x))).
  - destruct xs as [| x' rest]; [reflexivity |].
    simpl. rewrite Rmax_assoc. reflexivity.
  - rewrite update_metrics_ext, He. reflexivity.
Qed.

Lemma collect_ext_back (cfg : config) (xs : list (R * R)) (m : metrics)
    (e : R) :
  rep_ang_ext m = Some e ->
  rep_ang_ext (collect cfg TRAS m xs) =
  Some match xs with
       | [] => e
       | x :: rest => Rmin e (min_angle x rest)
       end.
Proof.
  revert m e. induction xs as [| x xs IH]; intros m e He; [exact He |].
  change (collect cfg TRAS m (x :: xs))
    with (collect cfg TRAS (update_metrics cfg TRAS (fst x) (snd x) m) xs).
  rewrite (IH _ (Rmin e (snd x))).
  - destruct xs as [| x' rest]; [reflexivity |].
    simpl. rewrite Rmin_assoc. reflexivity.
  - rewrite update_metrics_ext, He. reflexivity.
Qed.

Lemma collect_ext (cfg : config) (ph : phase) (x : R * R)
    (xs : list (R * R)) :
  is_rep ph = true ->
  rep_ang_ext (collect cfg ph fresh_metrics (x :: xs)) =
  Some (if phase_eqb ph FRENTE then max_angle x xs else min_angle x xs).
Proof.
  intros Hrep.
  change (collect cfg ph fresh_metrics (x :: xs))
    with (collect cfg ph (update_metrics cfg ph (fst x) (snd x) fresh_metrics)
            xs).
  destruct ph; try discriminate; simpl phase_eqb; cbv iota.
  - rewrite (collect_ext_back cfg xs _ (snd x)).
    + destruct xs; reflexivity.
    + rewrite update_metrics_ext. reflexivity.
  - rewrite (collect_ext_front cfg xs _ (snd x)).
    + destruct xs; reflexivity.
    + rewrite update_metrics_ext. reflexivity.
Qed.

Lemma max_angle_spec (x : R * R) (xs : list (R * R)) :
  Forall (fun y => snd y <= max_angle x xs) (x :: xs) /\
  Exists (fun y => snd y = max_angle x xs) (x :: xs).
Proof.
  revert x. induction xs as [| x' xs IH]; intros x.
  - simpl. split; [repeat constructor; lra | left; reflexivity].
  - destruct (IH x') as [Hall Hex].
    change (max_angle x (x' :: xs)) with (Rmax (snd x) (max_angle x' xs)).
    pose proof (Rmax_l (snd x) (max_angle x' xs)) as Hl.
    pose proof (Rmax_r (snd x) (max_angle x' xs)) as Hr.
    split.
    + apply Forall_cons; [exact Hl |].
      eapply Forall_impl; [| exact Hall]. simpl. intros y Hy. lra.
    + destruct (Rle_dec (snd x) (max_angle x' xs)) as [Hle | Hgt].
      * rewrite (Rmax_right _ _ Hle). right. exact Hex.
      * rewrite Rmax_left by lra. left. reflexivity.
Qed.

Lemma min_angle_spec (x : R * R) (xs : list (R * R)) :
  Forall (fun y => min_angle x xs <= snd y) (x :: xs) /\
  Exists (fun y => snd y = min_angle x xs) (x :: xs).
Proof.
  revert x. induction xs as [| x' xs IH]; intros x.
  - simpl. split; [repeat constructor; lra | left; reflexivity].
  - destruct (IH x') as [Hall Hex].
    change (min_angle x (x' :: xs)) with (Rmin (snd x) (min_angle x' xs)).
    pose proof (Rmin_l (snd x) (min_angle x' xs)) as Hl.
    pose proof (Rmin_r (snd x) (min_angle x' xs)) as Hr.
    split.
    + apply Forall_cons; [exact Hl |].
      eapply Forall_impl; [| exact Hall]. simpl. intros y Hy. lra.
    + destruct (Rle_dec (snd x) (min_angle x' xs)) as [Hle | Hgt].
      * rewrite (Rmin_left _ _ Hle). left. reflexivity.
      * rewrite Rmin_right by lra. right. exact Hex.
Qed.

(** X21.  The extreme written in the row of a repetition is the largest sampled
    angle for FRENTE and the smallest for TRÁS, cut at 0: [max(0, largest)]
    and [min(0, smallest)].  The setting is that of the time to target: a
    session inside the phase with the samples [h] seen so far, frames [fs]
    that do not use up the phase and the frame [f] that ends it. *)
Theorem extreme_recorded (cfg : config) (seq : list (phase * R))
    (s : state) (ph : phase) (h : list (R * R)) (fs : list frame)
    (f : frame) (x : R * R) (xs : list (R * R)) :
  config_ok cfg -> in_session s ->
  phase_name (proto s) = ph -> is_rep ph = true ->
  rep s = collect cfg ph fresh_metrics h ->
  Forall (fun g => plain g = true /\ 0 <= dt g) (fs ++ [f]) ->
  total_dt fs < phase_left (proto s) ->
  phase_left (proto s) <= total_dt fs + dt f ->
  h ++ samples (zero (cal s)) fs = x :: xs ->
  Forall (fun y => min_angle x xs <= snd y <= max_angle x xs) (x :: xs) /\
  Exists (fun y => snd y = max_angle x xs) (x :: xs) /\
  Exists (fun y => snd y = min_angle x xs) (x :: xs) /\
  exists s1 s2 r,
    run cfg seq s fs = Some s1 /\
    tick cfg seq s1 f = Some s2 /\
    report_rows s2 = report_rows s ++ [r] /\
    ang_ext r = Fin (if phase_eqb ph FRENTE
                     then Rmax 0 (max_angle x xs)
                     else Rmin 0 (min_angle x xs)).
Proof.
  intros Hok Hin Hph Hrep Hm Hall Hlt Hge Hxs.
  destruct (max_angle_spec x xs) as [Hmax Hmaxe].
  destruct (min_angle_spec x xs) as [Hmin Hmine].
  split.
  { rewrite Forall_forall in *. intros y Hy.
    split; [apply Hmin | apply Hmax]; exact Hy. }
  split; [exact Hmaxe |]. split; [exact Hmine |].
  apply Forall_app in Hall. destruct Hall as [Hfs Hf].
  inversion Hf as [| f' l' (Hpl & Hd) _]; subst f' l'.
  destruct (rep_run cfg seq ph fs s h Hok Hin Hph Hrep Hm Hfs Hlt)
    as (s1 & Hr & Hin1 & Hcal1 & Hph1 & Hleft1 & Hrows1 & Hm1).
  destruct (rep_frame_ends cfg seq s1 f Hok Hin1 Hpl)
    as (s2 & Ht & Hrows2).
  - rewrite Hph1. exact Hrep.
  - rewrite Hleft1. lra.
  - exists s1, s2, (rep_row ph (rep s1)).
    rewrite Hph1, Hrows1 in Hrows2.
    split; [exact Hr |]. split; [exact Ht |]. split; [exact Hrows2 |].
    unfold rep_row. simpl. rewrite Hm1, Hxs, final_extreme_clamped.
    rewrite (collect_ext cfg ph x xs Hrep). simpl.
    destruct (phase_eqb ph FRENTE); reflexivity.
Qed.

Lemma extreme_recorded_witness :
  exists s1 s2 r,
    run main_cfg main_seq front_start
      [sample_frame 2 5 None; sample_frame 2 12 None;
       sample_frame 2 20 None; sample_frame 2 18 None] = Some s1 /\
    tick main_cfg main_seq s1 (sample_frame 2 0 None) = Some s2 /\
    report_rows s2 = report_rows front_start ++ [r] /\
    ang_ext r = Fin 20.
Proof.
  destruct (extreme_recorded main_cfg main_seq front_start FRENTE []
              [sample_frame 2 5 None; sample_frame 2 12 None;
               sample_frame 2 20 None; sample_frame 2 18 None]
              (sample_frame 2 0 None) (2, 5 - 0)
              [(2, 12 - 0); (2, 20 - 0); (2, 18 - 0)])
    as (_ & _ & _ & s1 & s2 & r & Hr & Ht & Hrows & Hext).
  - exact main_cfg_ok.
  - unfold in_session. simpl. repeat split; lra.
  - reflexivity.
  - reflexivity.
  - reflexivity.
  - simpl. repeat (apply Forall_cons; [split; [reflexivity | simpl; lra] |]).
    apply Forall_nil.
  - simpl. lra.
  - simpl. lra.
  - reflexivity.
  - exists s1, s2, r. split; [exact Hr |]. split; [exact Ht |].
    split; [exact Hrows |]. rewrite Hext. simpl. f_equal.
    unfold Rmax. repeat (destruct (Rle_dec _ _); try lra).
Defined.

(** ** The goal label and the metrics *)

Lemma goal_label_reached (cfg : config) (ph : phase) (a : R) :
  goal_label cfg ph a = Some true <->
  is_rep ph = true /\ target_reached cfg ph a = true.
Proof.
  unfold goal_label, target_reached.
  destruct ph; simpl; split;
    try (intros H; discriminate H);
    try (intros [H _]; discriminate H).
  - intros H. injection H as H. rewrite H. split; reflexivity.
  - intros [_ H]. rewrite H. reflexivity.
  - intros H. injection H as H. rewrite H. split; reflexivity.
  - intros [_ H]. rewrite orb_false_r in H. rewrite H. reflexivity.
Qed.

Lemma update_metrics_hit (cfg : config) (ph : phase) (d a : R) (m : metrics) :
  rep_hit (update_metrics cfg ph d a m) =
  rep_hit m || target_reached cfg ph a.
Proof.
  unfold update_metrics. cbv zeta.
  destruct (rep_hit m), (target_reached cfg ph a); reflexivity.
Qed.

(** The metrics handed to the metrics block are those of the state or fresh
    ones. *)
Lemma frame_metrics_cases (cfg : config) (seq : list (phase * R))
    (s s1 : state) (f : frame) (a : R) (c : calibration) :
  handle_events cfg seq (now f) s (events f) = Some s1 ->
  let m := snd (fst (snd (banner_phases cfg seq f a c (proto s1) (rep s1)
                            (report_rows s1)))) in
  m = rep s \/ m = fresh_metrics.
Proof.
  intros Hev. cbv zeta.
  assert (H1 : rep s1 = rep s \/ rep s1 = fresh_metrics).
  { clear a c. revert s Hev. generalize (events f) as es.
    induction es as [| e es IH]; intros s H; simpl in H.
    - injection H as <-. left. reflexivity.
    - apply bind_some in H. destruct H as (s2 & He & H).
      destruct (handle_event_cases cfg seq (now f) s s2 e He)
        as [(_ & Hm & _) | (name & dur & _ & (_ & Hm & _))].
      + rewrite <- Hm. apply IH. exact H.
      + destruct (IH s2 H) as [H' | H']; [right; congruence | right; exact H'].
  }
  assert (H2 : snd (fst (snd (banner_phases cfg seq f a c (proto s1) (rep s1)
                                (report_rows s1)))) = rep s1 \/
               snd (fst (snd (banner_phases cfg seq f a c (proto s1) (rep s1)
                                (report_rows s1)))) = fresh_metrics).
  { destruct (banner_phases_cases cfg seq f a c (proto s1) (rep s1)
                (report_rows s1)) as [-> | [-> | [_ ->]]];
      try (left; reflexivity).
    destruct (phase_step_cases cfg seq (dt f) a (proto s1) (rep s1)
                (report_rows s1))
      as [(left & ok & total & -> & _)
         | [(left & _ & ->)
           | [(left & _ & ->) | (left & _ & _ & ->)]]];
      simpl; auto. }
  destruct H2 as [H2 | H2]; [rewrite H2; exact H1 | right; exact H2].
Qed.

(** X24.  The check mark of the goal label and the hit recorded by the metrics:
    in every state of a run the mark is shown only if the repetition in
    progress has its target recorded as hit; and a frame that records the
    hit shows the mark. *)
Theorem goal_mark_means_hit (cfg : config) (seq : list (phase * R))
    (s : state) :
  (reachable cfg seq s -> shown_goal cfg s = Some true ->
   rep_hit (rep s) = true) /\
  (forall s' f,
     tick cfg seq s f = Some s' ->
     rep_hit (rep s) = false -> rep_hit (rep s') = true ->
     shown_goal cfg s' = Some true).
Proof.
  split.
  - intros Hreach Hgoal. unfold shown_goal in Hgoal.
    destruct (active (cal s) (proto s)) eqn:Hact; [| discriminate].
    apply goal_label_reached in Hgoal. destruct Hgoal as [Hrep Hhit].
    inversion Hreach as [t s0 Hinit | s0 s1 f _ _ _ Ht]; subst.
    + unfold init_state in Hinit. apply bind_some in Hinit.
      destruct Hinit as ([name dur] & _ & H). injection H as <-.
      discriminate Hact.
    + destruct (tick_some cfg seq s0 s f Ht) as (s1 & k & _ & H).
      cbv zeta in H.
      destruct H as (_ & _ & Hc & Hp & Hm & _ & _ & Ha & _).
      rewrite Hm. unfold rep_metrics.
      rewrite <- Hp, <- Ha, <- Hc, Hact, Hrep. simpl.
      rewrite update_metrics_hit, Hhit. apply orb_true_r.
  - intros s' f Ht H0 H1.
    destruct (tick_some cfg seq s s' f Ht) as (s1 & k & Hev & H).
    cbv zeta in H.
    destruct H as (_ & _ & Hc & Hp & Hm & _ & _ & Ha & _).
    pose proof (frame_metrics_cases cfg seq s s1 f
                  (angle_used (last_angle f) (read_calibration f (cal s1))
                     (proto s1))
                  (read_calibration f (cal s1)) Hev) as Hcases.
    cbv zeta in Hcases.
    set (c := read_calibration f (cal s1)) in *.
    set (a := angle_used (last_angle f) c (proto s1)) in *.
    set (m := snd (fst (snd (banner_phases cfg seq f a c (proto s1) (rep s1)
                               (report_rows s1))))) in *.
    assert (Hm0 : rep_hit m = false).
    { destruct Hcases as [-> | ->]; [exact H0 | reflexivity]. }
    rewrite Hm in H1. unfold rep_metrics in H1.
    rewrite <- Hp, <- Ha, <- Hc in H1. unfold shown_goal.
    destruct (active (cal s') (proto s')) eqn:Hact;
      [| simpl in H1; congruence].
    destruct (is_rep (phase_name (proto s'))) eqn:Hrep;
      [| simpl in H1; congruence].
    simpl in H1. rewrite update_metrics_hit, Hm0 in H1.
    simpl in H1. apply goal_label_reached. split; assumption.
Qed.

Lemma goal_mark_means_hit_witness :
  exists s,
    reachable main_cfg main_seq s /\
    shown_goal main_cfg s = Some true /\ rep_hit (rep s) = true.
Proof.
  destruct main_session_starts as (s & Hreach & Hin & Hz & Hp).
  destruct (tick_plain main_cfg main_seq s (sample_frame 1 (-25) None)
              main_cfg_ok Hin eq_refl) as (s' & Ht & Hrun & Hcal & H).
  cbv zeta in H. destruct H as (Hp' & _ & _ & Ha).
  assert (Hr' : reachable main_cfg main_seq s').
  { apply (reach_tick main_cfg main_seq s s' (sample_frame 1 (-25) None));
      [exact Hreach | apply Hin | simpl; lra | exact Ht]. }
  assert (Hgoal : shown_goal main_cfg s' = Some true).
  { destruct Hin as (_ & Hc0 & _).
    unfold shown_goal, active. rewrite Ha, Hp', Hcal, Hc0, Hz, Hp.
    run_frame. unfold goal_label. simpl. rdecide. reflexivity. }
  exists s'. split; [exact Hr' |]. split; [exact Hgoal |].
  apply (goal_mark_means_hit main_cfg main_seq s'); assumption.
Defined.

(** ** The phase bar *)







Lemma py_max_floor_pos (x : R) : 0 < py_max x (1 / 100).
Proof. rewrite py_max_Rmax. pose proof (Rmax_r x (1 / 100)). lra. Qed.

(** X25.  Drawing the phase bar raises [ZeroDivisionError] exactly when the session
    is under way in a repetition phase and [rep_time] is 0; the bar of a
    transition divides by [max(settle_time, 0.01)] and never raises. *)
Theorem phase_bar_raises_iff (cfg : config) (s : state) :
  phase_bar cfg s = None <->
  active (cal s) (proto s) = true /\
  is_rep (phase_name (proto s)) = true /\ rep_time cfg = 0.
Proof.
  unfold phase_bar, bar_fill, fdiv.
  destruct (active (cal s) (proto s));
    [| split; [discriminate | intros [H _]; discriminate H]].
  destruct (is_rep (phase_name (proto s))).
  - destruct (Reqb_spec (rep_time cfg) 0) as [H0 | H0]; simpl.
    + split; [intros _; repeat split; exact H0 | reflexivity].
    + split; [discriminate | intros (_ & _ & H); contradiction].
  - destruct (phase_eqb (phase_name (proto s)) TRANSICAO); cbv zeta.
    + pose proof (py_max_floor_pos (settle_time cfg)) as Hpos.
      rewrite Reqb_false by lra. simpl.
      split; [discriminate | intros (_ & H & _); discriminate H].
    + split; [discriminate | intros (_ & H & _); discriminate H].
Qed.


Lemma phase_bar_raises_iff_witness :
  phase_bar (mkConfig 2 1 1 30 30 980 600 1200 900 70 180 8 20 (-20) 3 2 0 2
                      5 3 (5 / 2) 6) first_phase = None /\
  phase_bar main_cfg transition_start <> None.
Proof.
  split.
  - apply phase_bar_raises_iff. simpl. unfold active. simpl. rdecide.
    repeat split.
  - intros H. apply phase_bar_raises_iff in H.
    destruct H as (_ & H & _). discriminate H.
Defined.


(** ** The session clock *)




(** ** The lines of the sensor *)

Lemma imu_battery_line (float : String.string -> option R) (st : IMU.t)
    (line : String.string) :
  String.prefix IMU.VBAT line = true ->
  IMU.f (IMU.handle_line float st line) = IMU.f st /\
  IMU.last_angle (IMU.handle_line float st line) = IMU.last_angle st.
Proof.
  intros H. unfold IMU.handle_line.
  destruct (String.eqb line String.EmptyString); [split; reflexivity |].
  rewrite H.
  destruct (IMU.after_colon line) as [txt |]; [| split; reflexivity].
  destruct (float txt); split; reflexivity.
Qed.

Lemma imu_angle_line (float : String.string -> option R) (st : IMU.t)
    (line : String.string) :
  String.prefix IMU.VBAT line = false ->
  IMU.battery_v (IMU.handle_line float st line) = IMU.battery_v st.
Proof.
  intros H. unfold IMU.handle_line.
  destruct (String.eqb line String.EmptyString); [reflexivity |].
  rewrite H.
  destruct (if String.prefix IMU.ANG line
            then IMU.after_colon line else Some line) as [txt |];
    [| reflexivity].
  destruct (float txt); reflexivity.
Qed.

Lemma imu_angle_depends (float : String.string -> option R)
    (st1 st2 : IMU.t) (line : String.string) :
  IMU.f st1 = IMU.f st2 -> IMU.last_angle st1 = IMU.last_angle st2 ->
  IMU.f (IMU.handle_line float st1 line) =
    IMU.f (IMU.handle_line float st2 line) /\
  IMU.last_angle (IMU.handle_line float st1 line) =
    IMU.last_angle (IMU.handle_line float st2 line).
Proof.
  intros Hf Ha. unfold IMU.handle_line.
  destruct (String.eqb line String.EmptyString); [split; assumption |].
  destruct (String.prefix IMU.VBAT line).
  - destruct (IMU.after_colon line) as [txt |]; [| split; assumption].
    destruct (float txt); split; assumption.
  - destruct (if String.prefix IMU.ANG line
              then IMU.after_colon line else Some line) as [txt |];
      [| split; assumption].
    destruct (float txt); [| split; assumption].
    cbv zeta. cbn [IMU.f IMU.last_angle]. rewrite Hf. split; reflexivity.
Qed.

Lemma imu_battery_depends (float : String.string -> option R)
    (st1 st2 : IMU.t) (line : String.string) :
  IMU.battery_v st1 = IMU.battery_v st2 ->
  IMU.battery_v (IMU.handle_line float st1 line) =
    IMU.battery_v (IMU.handle_line float st2 line).
Proof.
  intros Hb. unfold IMU.handle_line.
  destruct (String.eqb line String.EmptyString); [assumption |].
  destruct (String.prefix IMU.VBAT line).
  - destruct (IMU.after_colon line) as [txt |]; [| assumption].
    destruct (float txt); [reflexivity | assumption].
  - destruct (if String.prefix IMU.ANG line
              then IMU.after_colon line else Some line) as [txt |];
      [| assumption].
    destruct (float txt); assumption.
Qed.

(** X5.  The two streams of the sensor do not disturb each other: the filter and
    the published angle after a list of lines are those after its angle
    lines alone (the lines that do not start with [VBAT:]), and the battery
    reading is the one after its battery lines alone, whatever the lines
    contain. *)
Theorem imu_streams_independent (float : String.string -> option R)
    (st : IMU.t) (lines : list String.string) :
  let angle_lines :=
    filter (fun l => negb (String.prefix IMU.VBAT l)) lines in
  let battery_lines := filter (String.prefix IMU.VBAT) lines in
  IMU.f (IMU.feed_lines float st lines) =
    IMU.f (IMU.feed_lines float st angle_lines) /\
  IMU.last_angle (IMU.feed_lines float st lines) =
    IMU.last_angle (IMU.feed_lines float st angle_lines) /\
  IMU.battery_v (IMU.feed_lines float st lines) =
    IMU.battery_v (IMU.feed_lines float st battery_lines).
Proof.
  cbv zeta.
  assert (Hang : forall st1 st2,
            IMU.f st1 = IMU.f st2 ->
            IMU.last_angle st1 = IMU.last_angle st2 ->
            IMU.f (IMU.feed_lines float st1 lines) =
              IMU.f (IMU.feed_lines float st2
                       (filter (fun l => negb (String.prefix IMU.VBAT l))
                          lines)) /\
            IMU.last_angle (IMU.feed_lines float st1 lines) =
              IMU.last_angle (IMU.feed_lines float st2
                       (filter (fun l => negb (String.prefix IMU.VBAT l))
                          lines))).
  { induction lines as [| l ls IH]; intros st1 st2 Hf Ha.
    - split; assumption.
    - simpl. destruct (String.prefix IMU.VBAT l) eqn:Hl; simpl.
      + destruct (imu_battery_line float st1 l Hl) as [Hf1 Ha1].
        apply IH; congruence.
      + destruct (imu_angle_depends float st1 st2 l Hf Ha) as [Hf1 Ha1].
        apply IH; assumption. }
  assert (Hbat : forall st1 st2,
            IMU.battery_v st1 = IMU.battery_v st2 ->
            IMU.battery_v (IMU.feed_lines float st1 lines) =
              IMU.battery_v (IMU.feed_lines float st2
                               (filter (String.prefix IMU.VBAT) lines))).
  { clear Hang. induction lines as [| l ls IH]; intros st1 st2 Hb.
    - exact Hb.
    - simpl. destruct (String.prefix IMU.VBAT l) eqn:Hl; simpl.
      + apply IH. apply imu_battery_depends. exact Hb.
      + apply IH. rewrite (imu_angle_line float st1 l Hl). exact Hb. }
  destruct (Hang st st eq_refl eq_refl) as [H1 H2].
  split; [exact H1 |]. split; [exact H2 |]. apply Hbat. reflexivity.
Qed.




(** X7.  The prefix [ANG:] is optional: a line [ANG:text] is handled exactly as
    the bare line [text], provided [text] is not empty and does not itself
    start with [VBAT:] or [ANG:]. *)
Theorem imu_ang_prefix_optional (float : String.string -> option R)
    (st : IMU.t) (txt : String.string) :
  txt <> String.EmptyString ->
  String.prefix IMU.VBAT txt = false ->
  String.prefix IMU.ANG txt = false ->
  IMU.handle_line float st (String.append IMU.ANG txt) =
  IMU.handle_line float st txt.
Proof.
  intros Hne Hv Ha.
  assert (Hl : IMU.handle_line float st (String.append IMU.ANG txt) =
               match float txt with
               | Some ang =>
                   {| IMU.f := LowPass.update (IMU.f st) ang;
                      IMU.last_angle :=
                        LowPass.y (LowPass.update (IMU.f st) ang);
                      IMU.battery_v := IMU.battery_v st |}
               | None => st
               end).
  { unfold IMU.handle_line. simpl. destruct txt; reflexivity. }
  rewrite Hl. unfold IMU.handle_line.
  assert (He : String.eqb txt String.EmptyString = false)
    by (apply String.eqb_neq; exact Hne).
  rewrite He, Hv, Ha. reflexivity.
Qed.

Lemma imu_ang_prefix_optional_witness :
  IMU.handle_line IMU.sample_float (IMU.new (1 / 4))
    (String.append IMU.ANG IMU.bare_reading) =
  IMU.handle_line IMU.sample_float (IMU.new (1 / 4)) IMU.bare_reading.
Proof.
  apply imu_ang_prefix_optional; [discriminate | reflexivity | reflexivity].
Defined.

(** ** The choice of the serial port *)

Lemma find_first {A : Type} (f : A -> bool) (l1 l2 : list A) (x : A) :
  Forall (fun y => f y = false) l1 -> f x = true ->
  find f (l1 ++ x :: l2) = Some x.
Proof.
  induction l1 as [| y l1 IH]; intros Hall Hx; simpl.
  - rewrite Hx. reflexivity.
  - inversion Hall as [| y' l' Hy Hrest]; subst.
    rewrite Hy. apply IH; assumption.
Qed.

Lemma find_nowhere {A : Type} (f : A -> bool) (l : list A) :
  Forall (fun y => f y = false) l -> find f l = None.
Proof.
  induction 1 as [| y l Hy _ IH]; simpl; [reflexivity |].
  rewrite Hy. exact IH.
Qed.

(** X28.  How the serial port is chosen.  If the enumeration of the ports raises,
    no port is returned, even when one is configured.  Otherwise a
    configured (non-empty) port is returned as it is, listed or not.
    Without one, the device of the first listed port whose description or
    device name carries a hint is returned, and if no port carries a hint,
    the device of the first port, or nothing for an empty list. *)
Theorem bt_port_choice (port : option String.string)
    (ports : list IMU.port_info) :
  IMU.find_bt_port port None = None /\
  (IMU.truthy port = true -> IMU.find_bt_port port (Some ports) = port) /\
  (IMU.truthy port = false ->
   forall l1 p l2,
     ports = l1 ++ p :: l2 ->
     Forall (fun q => IMU.hinted q = false) l1 -> IMU.hinted p = true ->
     IMU.find_bt_port port (Some ports) = IMU.device p) /\
  (IMU.truthy port = false ->
   Forall (fun q => IMU.hinted q = false) ports ->
   IMU.find_bt_port port (Some ports) =
   match ports with
   | p :: _ => IMU.device p
   | [] => None
   end).
Proof.
  split; [reflexivity |]. unfold IMU.find_bt_port.
  split; [intros ->; reflexivity |].
  split.
  - intros -> l1 p l2 -> Hall Hp.
    rewrite (find_first IMU.hinted l1 l2 p Hall Hp). reflexivity.
  - intros -> Hall. rewrite (find_nowhere IMU.hinted ports Hall).
    reflexivity.
Qed.

Lemma bt_port_choice_witness :
  IMU.find_bt_port None (Some [IMU.wired_port; IMU.paired_port]) =
    IMU.device IMU.paired_port /\
  IMU.find_bt_port None (Some [IMU.wired_port]) = IMU.device IMU.wired_port.
Proof.
  split.
  - destruct (bt_port_choice None [IMU.wired_port; IMU.paired_port])
      as (_ & _ & H & _).
    apply (H eq_refl [IMU.wired_port] IMU.paired_port []).
    + reflexivity.
    + apply Forall_cons; [reflexivity | apply Forall_nil].
    + reflexivity.
  - destruct (bt_port_choice None [IMU.wired_port]) as (_ & _ & _ & H).
    apply (H eq_refl).
    apply Forall_cons; [reflexivity | apply Forall_nil].
Defined.
